(** * RFM customer segmentation: a shallow embedding of [RFM_Analysis.py]

    The script is a straight-line pandas pipeline:

      raw rows -> [df_clean] -> [rfm] -> scores -> [get_segment]

    [RFM_Analysis.py] and [Customer_Segmentation_RFM_Analysis.py] differ
    only in comments and in the text they print; one embedding covers both.

    Conventions of the embedding.
    - A DataFrame is the list of its rows, a column is a list.
    - int64 columns are [Z]; float64 columns (Price, TotalSales, Monetary,
      the bin edges) are exact rationals [Q]: products, sums and
      interpolated quantiles are not rounded.  Where the numbers are
      whole, or quarters of whole numbers (Recency, Frequency and their
      edges, the sample tables), this is the float computation.  For
      Monetary the properties below are about order and sign, or about
      tables on which the binning returns; which tables of arbitrary
      amounts the Monetary binning accepts is not claimed, since rounding
      can merge edges that the rationals keep apart.
    - A string is the list of its characters, with code points below 256.
    - A missing value (NaN, NaT, None) is [None].
    - A Python exception is [Raise]; the script catches none after the
      file has been read, so the first exception ends the run. *)

From Stdlib Require Import ZArith QArith Qround Qminmax Lia Lqa.
From Stdlib Require Import String Ascii DecimalString Bool List.
From Stdlib Require Import Sorting.Permutation Sorting.Sorted.
Import ListNotations.

Local Open Scope Z_scope.

(** ** Exceptions *)

Inductive exn : Type :=
| ValueError (msg : string)
| TypeError (msg : string).

Inductive result (A : Type) : Type :=
| Ok (a : A)
| Raise (e : exn).

Arguments Ok {A} a.
Arguments Raise {A} e.

Definition bind {A B : Type} (r : result A) (k : A -> result B) : result B :=
  match r with
  | Ok a => k a
  | Raise e => Raise e
  end.

Notation "x <- r ;; k" := (bind r (fun x => k))
  (at level 61, r at next level, right associativity).

Definition returns {A : Type} (r : result A) : Prop := exists a, r = Ok a.
Definition raises {A : Type} (r : result A) : Prop := exists e, r = Raise e.

(** ** Step 5: the segment classifier *)

Module Segment.

(** [get_segment] reads the three scores of a row and walks an
    if / elif chain. *)
Definition get_segment (r_score f_score m_score : Z) : string :=
  if (r_score =? 4) && (f_score =? 4) && (m_score =? 4) then "Champions"%string
  else if (r_score =? 4) && (f_score >=? 3) then "Loyal Customers"%string
  else if (r_score =? 4) && (f_score =? 1) then "New Customers"%string
  else if r_score =? 3 then "Potential Loyalists"%string
  else if r_score =? 2 then "At Risk Customers"%string
  else if (r_score =? 1) && (f_score >=? 2) then "Cant Lose Them"%string
  else if r_score =? 1 then "Lost Customers"%string
  else "Others"%string.

(** The keys of the [suggestions] dictionary: the eight group names. *)
Definition Customer_Groups : list string :=
  [ "Champions"; "Loyal Customers"; "New Customers"; "Potential Loyalists";
    "At Risk Customers"; "Cant Lose Them"; "Lost Customers"; "Others" ]%string.

Definition valid_score (s : Z) : Prop := 1 <= s <= 4.

(** The rule list as the specification words it: guards in order, the
    first guard that holds decides, and a default when none does. *)
Definition rule : Type := (Z -> Z -> Z -> bool) * string.

Definition spec_rules : list rule :=
  [ (fun r f m => (r =? 4) && (f =? 4) && (m =? 4), "Champions"%string);
    (fun r f _ => (r =? 4) && (3 <=? f),           "Loyal Customers"%string);
    (fun r f _ => (r =? 4) && (f =? 1),            "New Customers"%string);
    (fun r _ _ => r =? 3,                          "Potential Loyalists"%string);
    (fun r _ _ => r =? 2,                          "At Risk Customers"%string);
    (fun r f _ => (r =? 1) && (2 <=? f),           "Cant Lose Them"%string);
    (fun r _ _ => r =? 1,                          "Lost Customers"%string) ].

Fixpoint first_match (rules : list rule) (default : string) (r f m : Z) : string :=
  match rules with
  | [] => default
  | (guard, group) :: rest =>
      if guard r f m then group else first_match rest default r f m
  end.

Definition spec_segment : Z -> Z -> Z -> string :=
  first_match spec_rules "Others"%string.

End Segment.

(** ** The pandas operations the script calls

    Only the behaviour the script relies on is modelled, with the
    arguments the script passes ([right=True], [duplicates='raise'],
    [ordered=True], linear interpolation). *)

Module Pandas.

Local Open Scope Q_scope.

Definition Qlt_bool (x y : Q) : bool := negb (Qle_bool y x).

Definition isnull {A : Type} (v : option A) : bool :=
  match v with
  | None => true
  | Some _ => false
  end.

(** [Series.sort_values], [Series.unique]: generic in the comparison. *)
Section Generic.
Context {A : Type}.
Variable leb : A -> A -> bool.
Variable eqb : A -> A -> bool.

Fixpoint insert_sorted (x : A) (l : list A) : list A :=
  match l with
  | [] => [x]
  | y :: t => if leb x y then x :: l else y :: insert_sorted x t
  end.

Definition sort_values (l : list A) : list A :=
  fold_right insert_sorted [] l.

(** Distinct values in order of first appearance. *)
Fixpoint unique_from (seen l : list A) : list A :=
  match l with
  | [] => []
  | x :: t =>
      if existsb (eqb x) seen then unique_from seen t
      else x :: unique_from (x :: seen) t
  end.

Definition unique (l : list A) : list A := unique_from [] l.

Definition nunique (l : list A) : Z := Z.of_nat (length (unique l)).
End Generic.

(** [Series.min] and [Series.max] of a float column.  On an empty column
    pandas answers NaN; the script only reaches these calls after [qcut]
    has returned, that is on a non-empty table, and the value given here
    for the empty column is never used. *)
Definition Series_min (x : list Q) : Q :=
  match x with
  | [] => 0
  | a :: t => fold_left Qmin t a
  end.

Definition Series_max (x : list Q) : Q :=
  match x with
  | [] => 0
  | a :: t => fold_left Qmax t a
  end.

Definition Series_sum (x : list Q) : Q := fold_left Qplus x 0.

(** [Series.quantile(q)] with the default linear interpolation: the
    position [(n-1)*q] in the sorted column, interpolated between its two
    neighbours. *)
Definition quantile (x : list Q) (q : Q) : Q :=
  let s := sort_values Qle_bool x in
  let n := Z.of_nat (length s) in
  let pos := inject_Z (n - 1) * q in
  let lo := Qfloor pos in
  let hi := Z.min (lo + 1) (n - 1) in
  let gamma := pos - inject_Z lo in
  let a := nth (Z.to_nat lo) s 0 in
  let b := nth (Z.to_nat hi) s 0 in
  a + (b - a) * gamma.

(** [np.linspace(0, 1, q + 1)] *)
Definition linspace01 (q : nat) : list Q :=
  map (fun i => inject_Z (Z.of_nat i) / inject_Z (Z.of_nat q)) (seq 0 (S q)).

(** [Index.is_monotonic_increasing]: non-strict. *)
Fixpoint is_monotonic_increasing (bins : list Q) : bool :=
  match bins with
  | a :: ((b :: _) as t) => Qle_bool a b && is_monotonic_increasing t
  | _ => true
  end.

(** [bins.searchsorted(x, side='left')] on increasing [bins]: the number
    of edges strictly below [x]. *)
Fixpoint searchsorted_left (bins : list Q) (x : Q) : nat :=
  match bins with
  | [] => O
  | b :: t => if Qlt_bool b x then S (searchsorted_left t x) else O
  end.

(** The bin index of one value: [ids], then [include_lowest], then the
    [na_mask] for values outside every bin. *)
Definition bin_id (bins : list Q) (include_lowest : bool) (x : Q) : option nat :=
  let id := searchsorted_left bins x in
  let id := if include_lowest && Qeq_bool x (hd 0 bins) then 1%nat else id in
  if (id =? length bins)%nat || (id =? 0)%nat then None else Some id.

Definition take_label (labels : list Z) (id : option nat) : option Z :=
  match id with
  | None => None
  | Some i => nth_error labels (i - 1)
  end.

Definition has_duplicates_Z (l : list Z) : bool :=
  negb (length (unique Z.eqb l) =? length l)%nat.

(** [_bins_to_cuts]: refuses repeated edges and ill-formed labels, then
    labels every value; a value outside every bin gets no label. *)
Definition bins_to_cuts (x bins : list Q) (labels : list Z) (include_lowest : bool)
  : result (list (option Z)) :=
  if (length (unique Qeq_bool bins) <? length bins)%nat
     && negb (length bins =? 2)%nat
  then Raise (ValueError "Bin edges must be unique")
  else if has_duplicates_Z labels
  then Raise (ValueError "labels must be unique if ordered=True")
  else if negb (length labels =? length bins - 1)%nat
  then Raise (ValueError "Bin labels must be one fewer than the number of bin edges")
  else Ok (map (fun v => take_label labels (bin_id bins include_lowest v)) x).

(** [pd.cut(x, bins=<list>, labels=..., include_lowest=...)] *)
Definition cut (x bins : list Q) (labels : list Z) (include_lowest : bool)
  : result (list (option Z)) :=
  if negb (is_monotonic_increasing bins)
  then Raise (ValueError "bins must increase monotonically.")
  else bins_to_cuts x bins labels include_lowest.

(** [pd.qcut(x, q=<int>, labels=...)].  The quantiles of an empty column
    are all NaN, which [_bins_to_cuts] refuses as repeated edges. *)
Definition qcut (x : list Q) (q : nat) (labels : list Z) : result (list (option Z)) :=
  match x with
  | [] => Raise (ValueError "Bin edges must be unique")
  | _ => bins_to_cuts x (map (quantile x) (linspace01 q)) labels true
  end.

(** [Series.median] of a categorical column: pandas refuses numeric
    reductions of a Categorical with a TypeError. *)
Definition Categorical_median (col : list (option Z)) : result Q :=
  Raise (TypeError "'Categorical' with dtype category does not support reduction 'median'").

(** [Series.fillna(value)] on a categorical column: the value has to be
    one of the categories. *)
Definition Categorical_fillna (categories : list Z) (col : list (option Z)) (value : Q)
  : result (list (option Z)) :=
  match find (fun c => Qeq_bool (inject_Z c) value) categories with
  | Some c => Ok (map (fun v => match v with None => Some c | Some s => Some s end) col)
  | None => Raise (TypeError "Cannot setitem on a Categorical with a new category")
  end.

(** [Series.astype(int)]: a missing value cannot be converted. *)
Fixpoint astype_int (col : list (option Z)) : result (list Z) :=
  match col with
  | [] => Ok []
  | None :: _ => Raise (ValueError "Cannot convert float NaN to integer")
  | Some s :: t => bind (astype_int t) (fun t' => Ok (s :: t'))
  end.

End Pandas.

(** ** Step 2: cleaning *)

Module Cleaner.

Import Pandas.

(** A row of the CSV file, with the columns the pipeline reads.
    [Customer ID] may be missing.  An empty [InvoiceDate] is the empty
    string: as the missing value it stands for, it converts to NaT. *)
Record RawRow : Type := mkRawRow {
  raw_CustomerID : option Z;
  raw_Invoice : string;
  raw_Quantity : Z;
  raw_Price : Q;
  raw_InvoiceDate : string
}.

(** A row of [df_clean] once the step is over: nothing is missing any
    more, [TotalSales] has been added and [InvoiceDate] is a timestamp,
    counted in minutes since 1970-01-01 00:00. *)
Record Row : Type := mkRow {
  CustomerID : Z;
  Invoice : string;
  Quantity : Z;
  Price : Q;
  TotalSales : Q;
  InvoiceDate : Z
}.

(** *** [pd.to_datetime(..., format='%d/%m/%Y %H:%M', errors='coerce')]

    pandas turns the format into a regular expression and asks for a
    match of the whole string: [%d] is [3[0-1]|[1-2]\d|0[1-9]|[1-9]| [1-9]],
    [%m] is [1[0-2]|0[1-9]|[1-9]], [%Y] is [\d\d\d\d], [%H] is
    [2[0-3]|[0-1]\d|\d], [%M] is [[0-5]\d|\d], and the blank of the format
    is [\s+].  The fields then have to name a date of the calendar, and
    the instant has to fit pandas' nanosecond timestamps.  With
    [errors='coerce'] a string that fails one of these becomes NaT.

    A string is a list of characters with code points below 256; among
    these the decimal digits are [0] to [9].  The parser below reads the
    longest run of digits a field allows and checks the ranges at the
    end; the field that follows never starts with a digit where a
    shorter reading would be possible, so this is the match of the
    regular expression. *)

Definition digit (c : ascii) : option Z :=
  let n := nat_of_ascii c in
  if ((48 <=? n) && (n <=? 57))%nat then Some (Z.of_nat (n - 48)) else None.

(** [\s]: the characters of [str.isspace] below 256. *)
Definition is_blank (c : ascii) : bool :=
  let n := nat_of_ascii c in
  (((9 <=? n) && (n <=? 13)) || ((28 <=? n) && (n <=? 32))
   || (n =? 133) || (n =? 160))%nat.

(** One or two digits, two when there are two. *)
Definition digits12 (s : list ascii) : option (Z * list ascii) :=
  match s with
  | c1 :: rest =>
      match digit c1 with
      | None => None
      | Some d1 =>
          match rest with
          | c2 :: rest' =>
              match digit c2 with
              | Some d2 => Some (10 * d1 + d2, rest')
              | None => Some (d1, rest)
              end
          | [] => Some (d1, rest)
          end
      end
  | [] => None
  end.

(** [%d]: as above, or a space and one digit. *)
Definition day_digits (s : list ascii) : option (Z * list ascii) :=
  match s with
  | c1 :: rest =>
      if Ascii.eqb c1 " " then
        match rest with
        | c2 :: rest' =>
            match digit c2 with
            | Some d2 => Some (d2, rest')
            | None => None
            end
        | [] => None
        end
      else digits12 s
  | [] => None
  end.

Definition digits4 (s : list ascii) : option (Z * list ascii) :=
  match s with
  | c1 :: c2 :: c3 :: c4 :: rest =>
      match digit c1, digit c2, digit c3, digit c4 with
      | Some d1, Some d2, Some d3, Some d4 =>
          Some (1000 * d1 + 100 * d2 + 10 * d3 + d4, rest)
      | _, _, _, _ => None
      end
  | _ => None
  end.

Definition literal (c : ascii) (s : list ascii) : option (list ascii) :=
  match s with
  | c' :: rest => if Ascii.eqb c c' then Some rest else None
  | [] => None
  end.

Fixpoint skip_blanks (s : list ascii) : list ascii :=
  match s with
  | c :: rest => if is_blank c then skip_blanks rest else s
  | [] => []
  end.

Definition blanks (s : list ascii) : option (list ascii) :=
  match s with
  | c :: rest => if is_blank c then Some (skip_blanks rest) else None
  | [] => None
  end.

Definition is_leap (y : Z) : bool :=
  ((y mod 4 =? 0) && negb (y mod 100 =? 0)) || (y mod 400 =? 0).

Definition days_in_month (y m : Z) : Z :=
  if m =? 2 then (if is_leap y then 29 else 28)
  else if (m =? 4) || (m =? 6) || (m =? 9) || (m =? 11) then 30
  else 31.

(** Days from 1970-01-01 to the given date of the Gregorian calendar. *)
Definition days_from_civil (y m d : Z) : Z :=
  let y' := if m <=? 2 then y - 1 else y in
  let era := y' / 400 in
  let yoe := y' - era * 400 in
  let doy := (153 * (if 2 <? m then m - 3 else m + 9) + 2) / 5 + d - 1 in
  let doe := yoe * 365 + yoe / 4 - yoe / 100 + doy in
  era * 146097 + doe - 719468.

(** [Timestamp.min] and [Timestamp.max]: the instant, in nanoseconds
    since 1970, is an int64, whose least value stands for NaT. *)
Definition in_bounds (t : Z) : bool :=
  (- 9223372036854775807 <=? t * 60000000000)
  && (t * 60000000000 <=? 9223372036854775807).

Definition to_datetime (s : string) : option Z :=
  match day_digits (list_ascii_of_string s) with
  | None => None
  | Some (d, s1) =>
  match literal "/" s1 with
  | None => None
  | Some s2 =>
  match digits12 s2 with
  | None => None
  | Some (m, s3) =>
  match literal "/" s3 with
  | None => None
  | Some s4 =>
  match digits4 s4 with
  | None => None
  | Some (y, s5) =>
  match blanks s5 with
  | None => None
  | Some s6 =>
  match digits12 s6 with
  | None => None
  | Some (H, s7) =>
  match literal ":" s7 with
  | None => None
  | Some s8 =>
  match digits12 s8 with
  | None => None
  | Some (M, s9) =>
      match s9 with
      | [] =>
          if (1 <=? m) && (m <=? 12)
             && (1 <=? d) && (d <=? days_in_month y m)
             && (H <=? 23) && (M <=? 59)
          then
            let t := days_from_civil y m d * 1440 + H * 60 + M in
            if in_bounds t then Some t else None
          else None
      | _ :: _ => None
      end
  end end end end end end end end end.

(** *** What the format asks of a string

    The same format once more, written as a description of the strings
    and not as a procedure that reads them: the string is cut into its
    six fields, the date is looked up in a table of month lengths, and
    the days are counted from the first of January of the year 1.  The
    parser is compared with it below ([to_datetime_converts]). *)

Definition decimal_digits : list (ascii * Z) :=
  [ ("0"%char, 0); ("1"%char, 1); ("2"%char, 2); ("3"%char, 3); ("4"%char, 4);
    ("5"%char, 5); ("6"%char, 6); ("7"%char, 7); ("8"%char, 8); ("9"%char, 9) ].

Definition is_digit (c : ascii) (n : Z) : Prop := In (c, n) decimal_digits.

(** Tab, line feed, vertical tab, form feed, carriage return, the four
    separators, space, next line and no-break space. *)
Definition white_space_codes : list nat :=
  [9; 10; 11; 12; 13; 28; 29; 30; 31; 32; 133; 160]%nat.

Definition is_white_space (c : ascii) : Prop :=
  In (nat_of_ascii c) white_space_codes.

(** Day, month, hour and minute: one digit, or two. *)
Inductive field12 : list ascii -> Z -> Prop :=
| one_digit c n : is_digit c n -> field12 [c] n
| two_digits c1 c2 n1 n2 :
    is_digit c1 n1 -> is_digit c2 n2 -> field12 [c1; c2] (10 * n1 + n2).

(** The day may also be one digit after a space. *)
Inductive day_field : list ascii -> Z -> Prop :=
| day_plain f n : field12 f n -> day_field f n
| day_padded c n : is_digit c n -> day_field [" "%char; c] n.

Inductive year_field : list ascii -> Z -> Prop :=
| four_digits c1 c2 c3 c4 n1 n2 n3 n4 :
    is_digit c1 n1 -> is_digit c2 n2 -> is_digit c3 n3 -> is_digit c4 n4 ->
    year_field [c1; c2; c3; c4] (1000 * n1 + 100 * n2 + 10 * n3 + n4).

Definition white_space (w : list ascii) : Prop :=
  w <> [] /\ Forall is_white_space w.

Definition leap_year (y : Z) : bool :=
  (y mod 4 =? 0) && (negb (y mod 100 =? 0) || (y mod 400 =? 0)).

Definition month_lengths (y : Z) : list Z :=
  [31; if leap_year y then 29 else 28; 31; 30; 31; 30; 31; 31; 30; 31; 30; 31].

Definition calendar_date (y m d : Z) : Prop :=
  1 <= m <= 12 /\ 1 <= d <= nth (Z.to_nat (m - 1)) (month_lengths y) 0.

(** The number of the day, the first of January of the year 1 being
    day 1: the days of the years before, of the months before, and the
    day of the month. *)
Definition day_number (y m d : Z) : Z :=
  365 * (y - 1) + (y - 1) / 4 - (y - 1) / 100 + (y - 1) / 400
  + fold_right Z.add 0 (firstn (Z.to_nat (m - 1)) (month_lengths y))
  + d.

Definition epoch : Z := Eval cbv in day_number 1970 1 1.

Definition minute_of (y m d H M : Z) : Z :=
  ((day_number y m d - epoch) * 24 + H) * 60 + M.

(** [in_format s t]: the string [s] is a date and a time of day in the
    format day/month/year hour:minute, and names the minute [t]. *)
Definition in_format (s : string) (t : Z) : Prop :=
  exists df mf yf ws Hf Mf d m y H M,
    list_ascii_of_string s
    = df ++ "/"%char :: mf ++ "/"%char :: yf ++ ws ++ Hf ++ ":"%char :: Mf
    /\ day_field df d /\ field12 mf m /\ year_field yf y
    /\ white_space ws
    /\ field12 Hf H /\ field12 Mf M
    /\ calendar_date y m d /\ H <= 23 /\ M <= 59
    /\ t = minute_of y m d H M.

(** The minutes pandas can store: in nanoseconds, strictly between the
    least and the greatest int64 (from 1677-09-21 00:13 to
    2262-04-11 23:47). *)
Definition representable (t : Z) : Prop :=
  - 2 ^ 63 < t * 60 * 10 ^ 9 < 2 ^ 63.

(** A date that converts: in the format, and within the range. *)
Definition converts_to (s : string) (t : Z) : Prop :=
  in_format s t /\ representable t.

(** What the parser needs to know of the text that follows a field. *)
Definition no_digit_ahead (s : list ascii) : Prop :=
  match s with
  | c :: _ => digit c = None
  | [] => True
  end.

Definition no_blank_ahead (s : list ascii) : Prop :=
  match s with
  | c :: _ => is_blank c = false
  | [] => True
  end.

(** *** The cleaning steps, in the order of the script *)

(** [df_clean.dropna(subset=['Customer ID'])] *)
Definition dropna_customer (df : list RawRow) : list RawRow :=
  filter (fun r => negb (isnull (raw_CustomerID r))) df.

(** [df_clean[df_clean['Quantity'] > 0]] *)
Definition positive_quantity (df : list RawRow) : list RawRow :=
  filter (fun r => 0 <? raw_Quantity r) df.

(** [df_clean[df_clean['Price'] > 0]] *)
Definition positive_price (df : list RawRow) : list RawRow :=
  filter (fun r => Qlt_bool 0 (raw_Price r)) df.

(** [TotalSales = Quantity * Price], the date conversion, and
    [dropna(subset=['InvoiceDate'])]: a row whose date did not convert
    is left out. *)
Definition convert_row (r : RawRow) : list Row :=
  match raw_CustomerID r, to_datetime (raw_InvoiceDate r) with
  | Some c, Some t =>
      [ {| CustomerID := c;
           Invoice := raw_Invoice r;
           Quantity := raw_Quantity r;
           Price := raw_Price r;
           TotalSales := (inject_Z (raw_Quantity r) * raw_Price r)%Q;
           InvoiceDate := t |} ]
  | _, _ => []
  end.

Definition df_clean (df : list RawRow) : list Row :=
  flat_map convert_row (positive_price (positive_quantity (dropna_customer df))).

(** The three row filters taken together. *)
Definition passes_filters (r : RawRow) : bool :=
  negb (isnull (raw_CustomerID r)) && (0 <? raw_Quantity r) && Qlt_bool 0 (raw_Price r).

(** What relates a row of [df_clean] to the raw record it comes from. *)
Definition cleaned_from (r : RawRow) (row : Row) : Prop :=
  raw_CustomerID r = Some (CustomerID row)
  /\ Invoice row = raw_Invoice r
  /\ Quantity row = raw_Quantity r /\ 0 < Quantity row
  /\ Price row = raw_Price r /\ (0 < Price row)%Q
  /\ TotalSales row = (inject_Z (Quantity row) * Price row)%Q
  /\ (0 < TotalSales row)%Q
  /\ converts_to (raw_InvoiceDate r) (InvoiceDate row).

(** What the specification asks of a record for it to survive. *)
Definition well_formed (r : RawRow) : Prop :=
  raw_CustomerID r <> None
  /\ 0 < raw_Quantity r
  /\ (0 < raw_Price r)%Q
  /\ exists t, converts_to (raw_InvoiceDate r) t.

End Cleaner.

(** ** Step 3: the RFM metrics *)

Module Aggregator.

Import Pandas Cleaner.

(** [pd.Timedelta(days=1)], in minutes. *)
Definition one_day : Z := 1440.

(** [Timedelta.days]: whole days, rounded down. *)
Definition days (delta : Z) : Z := delta / one_day.

(** [Series.max] of a timestamp column; NaT on an empty column. *)
Definition Timestamp_max (x : list Z) : option Z :=
  match x with
  | [] => None
  | a :: t => Some (fold_left Z.max t a)
  end.

(** [snapshot_date = df_clean['InvoiceDate'].max() + pd.Timedelta(days=1)];
    NaT plus a day is NaT. *)
Definition snapshot_date (df : list Row) : option Z :=
  option_map (fun last => last + one_day) (Timestamp_max (map InvoiceDate df)).

Record CustomerMetrics : Type := mkMetrics {
  Customer : Z;
  Recency : Z;
  Frequency : Z;
  Monetary : Q
}.

(** The groups of [groupby('Customer ID')]: one per distinct customer,
    in increasing order of the key. *)
Definition group_keys (df : list Row) : list Z :=
  sort_values Z.leb (unique Z.eqb (map CustomerID df)).

Definition group (df : list Row) (key : Z) : list Row :=
  filter (fun r => CustomerID r =? key) df.

(** [lambda x: (snapshot_date - x.max()).days].  A group has at least one
    row, so [x.max()] is a timestamp. *)
Definition recency_of (snapshot : Z) (x : list Z) : Z :=
  match Timestamp_max x with
  | Some last => days (snapshot - last)
  | None => 0
  end.

Definition agg (snapshot : Z) (df : list Row) (key : Z) : CustomerMetrics :=
  let x := group df key in
  {| Customer := key;
     Recency := recency_of snapshot (map InvoiceDate x);
     Frequency := nunique String.eqb (map Invoice x);
     Monetary := Series_sum (map TotalSales x) |}.

(** The table [rfm].  With no row at all [snapshot_date] is NaT and there
    is no group to aggregate. *)
Definition rfm (df : list Row) : list CustomerMetrics :=
  match snapshot_date df with
  | None => []
  | Some snapshot => map (agg snapshot df) (group_keys df)
  end.

(** The step as a stage of the run: it has no statement that raises. *)
Definition aggregate (df : list Row) : result (list CustomerMetrics) :=
  Ok (rfm df).

End Aggregator.

(** ** Step 4: the scores *)

Module Scores.

Import Pandas Cleaner Aggregator.

Local Open Scope Q_scope.

Definition recency_col (rfm : list CustomerMetrics) : list Q :=
  map (fun c => inject_Z (Recency c)) rfm.

Definition frequency_col (rfm : list CustomerMetrics) : list Q :=
  map (fun c => inject_Z (Frequency c)) rfm.

Definition monetary_col (rfm : list CustomerMetrics) : list Q :=
  map Monetary rfm.

(** [pd.qcut(rfm['Recency'], q=4, labels=[4, 3, 2, 1])] *)
Definition recency_edges (rfm : list CustomerMetrics) : list Q :=
  map (quantile (recency_col rfm)) (linspace01 4).

Definition R_Score_cut (rfm : list CustomerMetrics) : result (list (option Z)) :=
  qcut (recency_col rfm) 4 [4; 3; 2; 1]%Z.

Definition freq_bins (rfm : list CustomerMetrics) : list Q :=
  [ Series_min (frequency_col rfm) - 1; 1; 2; 3; Series_max (frequency_col rfm) ].

Definition monetary_bins (rfm : list CustomerMetrics) : list Q :=
  [ Series_min (monetary_col rfm) - 1;
    quantile (monetary_col rfm) (1 # 4);
    quantile (monetary_col rfm) (1 # 2);
    quantile (monetary_col rfm) (3 # 4);
    Series_max (monetary_col rfm) ].

(** [pd.cut(rfm['Frequency'], bins=freq_bins, labels=[1, 2, 3, 4],
    include_lowest=True)], and the same for Monetary. *)
Definition F_Score_cut (rfm : list CustomerMetrics) : result (list (option Z)) :=
  cut (frequency_col rfm) (freq_bins rfm) [1; 2; 3; 4]%Z true.

Definition M_Score_cut (rfm : list CustomerMetrics) : result (list (option Z)) :=
  cut (monetary_col rfm) (monetary_bins rfm) [1; 2; 3; 4]%Z true.

(** The body of the loop "Fill missing values (edge cases)" for one
    column: nothing happens unless a score is missing. *)
Definition fill_missing (categories : list Z) (col : list (option Z))
  : result (list (option Z)) :=
  if existsb isnull col then
    median_val <- Categorical_median col ;;
    Categorical_fillna categories col median_val
  else Ok col.

Definition str (z : Z) : string := NilZero.string_of_int (Z.to_int z).

Record ScoredCustomer : Type := mkScored {
  Metrics : CustomerMetrics;
  R_Score : Z;
  F_Score : Z;
  M_Score : Z;
  RFM_Segment : string
}.

Fixpoint scored_rows (rfm : list CustomerMetrics) (R F M : list Z) : list ScoredCustomer :=
  match rfm, R, F, M with
  | c :: rfm', r :: R', f :: F', m :: M' =>
      {| Metrics := c; R_Score := r; F_Score := f; M_Score := m;
         RFM_Segment := (str r ++ str f ++ str m)%string |}
      :: scored_rows rfm' R' F' M'
  | _, _, _, _ => []
  end.

(** Step 4 as a whole.  The bin edges are computed between the call of
    [qcut] and the two calls of [cut]; computing them raises nothing. *)
Definition assign_scores (rfm : list CustomerMetrics) : result (list ScoredCustomer) :=
  R <- R_Score_cut rfm ;;
  F <- F_Score_cut rfm ;;
  M <- M_Score_cut rfm ;;
  R <- fill_missing [4; 3; 2; 1]%Z R ;;
  F <- fill_missing [1; 2; 3; 4]%Z F ;;
  M <- fill_missing [1; 2; 3; 4]%Z M ;;
  Rn <- astype_int R ;;
  Fn <- astype_int F ;;
  Mn <- astype_int M ;;
  Ok (scored_rows rfm Rn Fn Mn).

(** *** The bucketing as the specification words it *)

(** Four buckets delimited by three inner cut points, with the labels of
    the buckets from the lowest to the highest. *)
Definition bucket (q1 q2 q3 : Q) (l1 l2 l3 l4 : Z) (x : Q) : Z :=
  if Qle_bool x q1 then l1
  else if Qle_bool x q2 then l2
  else if Qle_bool x q3 then l3
  else l4.

(** Score 4 for the lowest quartile of Recency, down to 1. *)
Definition spec_R_Score (rfm : list CustomerMetrics) (c : CustomerMetrics) : Z :=
  let x := recency_col rfm in
  bucket (quantile x (1 # 4)) (quantile x (1 # 2)) (quantile x (3 # 4))
         4 3 2 1 (inject_Z (Recency c)).

(** Score 1 for the lowest quartile of Monetary, up to 4. *)
Definition spec_M_Score (rfm : list CustomerMetrics) (c : CustomerMetrics) : Z :=
  let x := monetary_col rfm in
  bucket (quantile x (1 # 4)) (quantile x (1 # 2)) (quantile x (3 # 4))
         1 2 3 4 (Monetary c).

(** Frequency 1, 2, 3 score 1, 2, 3; four and more score 4. *)
Definition spec_F_Score (c : CustomerMetrics) : Z :=
  if (Frequency c =? 1)%Z then 1
  else if (Frequency c =? 2)%Z then 2
  else if (Frequency c =? 3)%Z then 3
  else 4.

(** The 0th, 25th, 50th, 75th and 100th percentile of Monetary. *)
Definition spec_monetary_percentiles (rfm : list CustomerMetrics) : list Q :=
  map (quantile (monetary_col rfm)) [0; 1 # 4; 1 # 2; 3 # 4; 1].

(** How many customers received each of the scores 4, 3, 2, 1. *)
Definition bucket_sizes (scores : list (option Z)) : list nat :=
  map (fun l => length (filter (fun s => match s with
                                        | Some v => (v =? l)%Z
                                        | None => false
                                        end) scores))
      [4; 3; 2; 1]%Z.

(** Equal populations, read generously: no two buckets differ by more
    than one customer. *)
Definition equal_population (sizes : list nat) : Prop :=
  forall a b, In a sizes -> In b sizes -> (a <= b + 1)%nat.

Definition strictly_increasing (bins : list Q) : Prop :=
  StronglySorted Qlt bins.

Definition valid_score (s : Z) : Prop := (1 <= s <= 4)%Z.

End Scores.

(** ** The run *)

Module Pipeline.

Import Pandas Cleaner Aggregator Scores Segment.

Record ClassifiedCustomer : Type := mkClassified {
  Scored : ScoredCustomer;
  Customer_Group : string
}.

(** [rfm['Customer_Group'] = rfm.apply(get_segment, axis=1)] *)
Definition segment_customers (scored : list ScoredCustomer) : list ClassifiedCustomer :=
  map (fun s => {| Scored := s;
                   Customer_Group := get_segment (R_Score s) (F_Score s) (M_Score s) |})
      scored.

(** The columns of a classified row that name the customer's segment. *)
Definition summary (c : ClassifiedCustomer) : Z * string * string :=
  (Customer (Metrics (Scored c)), RFM_Segment (Scored c), Customer_Group c).

Definition run (df : list RawRow) : result (list ClassifiedCustomer) :=
  table <- aggregate (df_clean df) ;;
  scored <- assign_scores table ;;
  Ok (segment_customers scored).

End Pipeline.

(** ** Sample inputs *)

Module Samples.

Import Cleaner Aggregator.

(** Eight customers, three of them sharing one Recency and three sharing
    one Monetary value. *)
Definition tied_customers : list CustomerMetrics :=
  [ mkMetrics 12346 1 1 1; mkMetrics 12347 2 2 1; mkMetrics 12348 2 3 1;
    mkMetrics 12349 2 4 2; mkMetrics 12350 3 5 3; mkMetrics 12351 4 1 4;
    mkMetrics 12352 5 1 5; mkMetrics 12353 6 1 6 ].

(** Two customers, one single purchase and one regular. *)
Definition two_customers : list CustomerMetrics :=
  [ mkMetrics 12346 1 1 10; mkMetrics 12347 2 5 20 ].

(** Two customers who both came back at least once. *)
Definition repeat_buyers : list CustomerMetrics :=
  [ mkMetrics 12346 1 2 10; mkMetrics 12347 2 5 20 ].

(** Five customers of whom three spent the same, least, amount. *)
Definition equal_spenders : list CustomerMetrics :=
  [ mkMetrics 12346 1 1 10; mkMetrics 12347 2 1 10; mkMetrics 12348 3 1 10;
    mkMetrics 12349 4 1 20; mkMetrics 12350 5 4 30 ].

(** Raw rows that give this table: whole prices, one line per invoice,
    the last purchases on five consecutive days. *)
Definition raw_equal_spenders : list RawRow :=
  [ mkRawRow (Some 12346) "540001" 1 10 "05/12/2011 10:00";
    mkRawRow (Some 12347) "540002" 2 5 "04/12/2011 10:00";
    mkRawRow (Some 12348) "540003" 1 10 "03/12/2011 10:00";
    mkRawRow (Some 12349) "540004" 1 20 "02/12/2011 10:00";
    mkRawRow (Some 12350) "540005" 1 5 "01/09/2011 10:00";
    mkRawRow (Some 12350) "540006" 1 5 "01/10/2011 10:00";
    mkRawRow (Some 12350) "540007" 1 10 "01/11/2011 10:00";
    mkRawRow (Some 12350) "540008" 1 10 "01/12/2011 10:00" ].


(** Rows of the kind found in the retail file: two lines of one invoice,
    a row without customer, a return, a free item, a date in another
    format, and a later purchase. *)
Definition raw_sample : list RawRow :=
  [ mkRawRow (Some 17850) "536365" 6 (255 # 100) "01/12/2010 08:26";
    mkRawRow (Some 17850) "536365" 6 (339 # 100) "01/12/2010 08:26";
    mkRawRow None "536366" 6 (339 # 100) "01/12/2010 08:28";
    mkRawRow (Some 13047) "C536367" (-1) (339 # 100) "01/12/2010 08:34";
    mkRawRow (Some 13047) "536368" 2 0 "01/12/2010 08:34";
    mkRawRow (Some 13047) "536369" 2 (1 # 2) "2010-12-01 08:34";
    mkRawRow (Some 13047) "536370" 2 (1 # 2) "09/12/2011 12:50" ].

(** A customer seen once a year before the last date of the file, and a
    customer with four invoices, a cancellation and a recent purchase. *)
Definition raw_regular : list RawRow :=
  [ mkRawRow (Some 13085) "489434" 12 (695 # 100) "01/12/2009 07:45";
    mkRawRow (Some 13085) "489434" 12 (675 # 100) "01/12/2009 07:45";
    mkRawRow (Some 13078) "489435" 24 (165 # 100) "01/12/2009 09:06";
    mkRawRow (Some 13078) "489571" 3 (595 # 100) "01/03/2010 10:00";
    mkRawRow (Some 13078) "C489572" (-3) (595 # 100) "01/03/2010 10:05";
    mkRawRow (Some 13078) "490001" 10 (125 # 100) "15/06/2010 12:30";
    mkRawRow None "490002" 1 (250 # 100) "16/06/2010 09:00";
    mkRawRow (Some 13078) "490950" 48 (125 # 100) "09/12/2010 16:20" ].

(** One invoice of five lines, all of one customer. *)
Definition five_lines : list Row :=
  [ mkRow 17850 "536365" 6 (255 # 100) (1530 # 100) 21519866;
    mkRow 17850 "536365" 6 (339 # 100) (2034 # 100) 21519866;
    mkRow 17850 "536365" 8 (275 # 100) (2200 # 100) 21519866;
    mkRow 17850 "536365" 2 (765 # 100) (1530 # 100) 21519866;
    mkRow 17850 "536365" 6 (425 # 100) (2550 # 100) 21519866 ].

Definition five_lines_metrics : CustomerMetrics :=
  mkMetrics 17850 1 1 (984400000000 # 10000000000).

End Samples.

(** ** Steps 5 to 7: what is reported about the segments *)

Module Report.

Import Pandas Cleaner Aggregator Scores Segment Pipeline.

(** The row the scoring step builds for one customer of the table, once
    the three binnings have returned. *)
Definition score_row (rfm : list CustomerMetrics) (c : CustomerMetrics) : ScoredCustomer :=
  let r := spec_R_Score rfm c in
  let f := bucket 1 2 3 1 2 3 4 (inject_Z (Frequency c)) in
  let m := spec_M_Score rfm c in
  {| Metrics := c; R_Score := r; F_Score := f; M_Score := m;
     RFM_Segment := (str r ++ str f ++ str m)%string |}.

(** The character of a score from 1 to 9. *)
Definition digit_char (s : Z) : ascii := ascii_of_nat (48 + Z.to_nat s).

(** [Series.value_counts()]: every distinct value with the number of
    its occurrences, the most frequent first.  (The order among values
    of equal count is not relied on below.) *)
Definition count_of (v : string) (col : list string) : nat :=
  length (filter (String.eqb v) col).

Definition value_counts (col : list string) : list (string * nat) :=
  sort_values (fun a b => (snd b <=? snd a)%nat)
              (map (fun v => (v, count_of v col)) (unique String.eqb col)).

(** [segment_counts = rfm['Customer_Group'].value_counts()] *)
Definition segment_counts (rfm : list ClassifiedCustomer) : list (string * nat) :=
  value_counts (map Customer_Group rfm).

(** The dictionary [suggestions], as [Customer_Segmentation_RFM_Analysis.py]
    words it; [RFM_Analysis.py] has the same keys with other texts. *)
Definition suggestions : list (string * string) :=
  [ ("Champions",
     "VIP treatment: Exclusive offers, early access to new products, premium loyalty rewards");
    ("Loyal Customers",
     "Loyalty programs: Tiered rewards, special discounts, personalized recommendations");
    ("New Customers",
     "Welcome series: Onboarding emails, first-purchase follow-up, small discount on next order");
    ("Potential Loyalists",
     "Engagement campaigns: Product recommendations, educational content, moderate discounts");
    ("At Risk Customers",
     "Win-back offers: 'We miss you' campaigns, 15-20% discounts, highlight new products");
    ("Cant Lose Them",
     "Aggressive retention: High-value offers, personal outreach, understand their needs");
    ("Lost Customers",
     "Re-engagement surveys: Understand why they left, strong comeback incentives");
    ("Others",
     "General marketing: Newsletter campaigns, broad promotions, brand awareness content") ]%string.

(** [d[key]] as an option, and [d.get(key, default)]. *)
Fixpoint lookup (d : list (string * string)) (key : string) : option string :=
  match d with
  | [] => None
  | (k, v) :: rest => if String.eqb k key then Some v else lookup rest key
  end.

Definition dict_get (d : list (string * string)) (key default : string) : string :=
  match lookup d key with
  | Some v => v
  | None => default
  end.

(** [rfm.nlargest(n, 'Monetary')]: the [n] rows of greatest Monetary,
    greatest first, earlier rows first among equals. *)
Definition nlargest (n : nat) (rfm : list CustomerMetrics) : list CustomerMetrics :=
  firstn n (sort_values (fun a b => Qle_bool (Monetary b) (Monetary a)) rfm).

(** [top_customers = rfm.nlargest(5, 'Monetary')] *)
Definition top_customers (rfm : list CustomerMetrics) : list CustomerMetrics :=
  nlargest 5 rfm.

End Report.

(** ** [Simple_RFM_Fixed.py]: the path typed or dropped by the user

    A character is a code point below 256. *)

Module PathTool.

(** [str.isspace] on one character. *)
Definition isspace (c : ascii) : bool :=
  let n := nat_of_ascii c in
  (((9 <=? n) && (n <=? 13)) || ((28 <=? n) && (n <=? 32))
   || (n =? 133) || (n =? 160))%nat.

Fixpoint lstrip (s : list ascii) : list ascii :=
  match s with
  | c :: rest => if isspace c then lstrip rest else s
  | [] => []
  end.

Definition rstrip (s : list ascii) : list ascii := rev (lstrip (rev s)).

(** [s.strip()] *)
Definition strip (s : list ascii) : list ascii := rstrip (lstrip s).

Definition double_quote : ascii := ascii_of_nat 34.

(** [s.replace(q, '')] where [q] is the double quote: every occurrence
    goes. *)
Definition remove_quotes (s : list ascii) : list ascii :=
  filter (fun c => negb (Ascii.eqb c double_quote)) s.

(** [file_path]: the line read by [input()], stripped, then without its
    double quotes. *)
Definition file_path (line : string) : string :=
  string_of_list_ascii (remove_quotes (strip (list_ascii_of_string line))).

End PathTool.

(** * Properties *)

Import Pandas Cleaner Aggregator Scores Segment Pipeline Samples Report.

(** ** Generic facts about [sort_values] and [unique] *)

Section SortFacts.
Context {A : Type}.
Variable leb : A -> A -> bool.

Lemma insert_sorted_perm (x : A) (l : list A) :
  Permutation (x :: l) (insert_sorted leb x l).
Proof.
  induction l as [|y t IH]; simpl.
  - apply Permutation_refl.
  - destruct (leb x y).
    + apply Permutation_refl.
    + eapply perm_trans; [apply perm_swap|].
      now apply perm_skip.
Qed.

Lemma sort_values_perm (l : list A) : Permutation l (sort_values leb l).
Proof.
  induction l as [|x t IH]; simpl.
  - constructor.
  - eapply perm_trans; [apply perm_skip, IH|].
    apply insert_sorted_perm.
Qed.

Lemma sort_values_In (l : list A) (x : A) : In x (sort_values leb l) <-> In x l.
Proof.
  split; apply Permutation_in.
  - apply Permutation_sym, sort_values_perm.
  - apply sort_values_perm.
Qed.

Lemma sort_values_length (l : list A) : length (sort_values leb l) = length l.
Proof. symmetry. apply Permutation_length, sort_values_perm. Qed.

Variable le : A -> A -> Prop.
Hypothesis leb_le : forall x y, leb x y = true -> le x y.
Hypothesis leb_total : forall x y, leb x y = false -> le y x.

Lemma insert_sorted_sorted (x : A) (l : list A) :
  Sorted le l -> Sorted le (insert_sorted leb x l).
Proof.
  induction 1 as [|y t Hs IH Hhd]; simpl.
  - repeat constructor.
  - destruct (leb x y) eqn:E.
    + constructor; [now constructor|constructor; auto].
    + constructor; [exact IH|].
      destruct t as [|z t']; simpl.
      * constructor; auto.
      * inversion Hhd; subst.
        destruct (leb x z) eqn:E'; constructor; auto.
Qed.

Lemma sort_values_sorted (l : list A) : Sorted le (sort_values leb l).
Proof.
  induction l; simpl.
  - constructor.
  - now apply insert_sorted_sorted.
Qed.
End SortFacts.

Section UniqueFacts.
Context {A : Type}.
Variable eqb : A -> A -> bool.

Lemma unique_from_length (seen l : list A) :
  (length (unique_from eqb seen l) <= length l)%nat.
Proof.
  revert seen; induction l as [|x t IH]; intros seen; simpl.
  - lia.
  - destruct (existsb (eqb x) seen).
    + specialize (IH seen); lia.
    + simpl; specialize (IH (x :: seen)); lia.
Qed.

Hypothesis eqb_eq : forall x y, eqb x y = true <-> x = y.

Lemma existsb_eqb_In (x : A) (l : list A) : existsb (eqb x) l = true <-> In x l.
Proof.
  rewrite existsb_exists; split.
  - intros (y & Hy & E); apply eqb_eq in E; now subst.
  - intros H; exists x; split; [exact H | now apply eqb_eq].
Qed.

Lemma unique_from_In (seen l : list A) (x : A) :
  In x (unique_from eqb seen l) <-> In x l /\ ~ In x seen.
Proof.
  revert seen; induction l as [|y t IH]; intros seen; simpl.
  - tauto.
  - destruct (existsb (eqb y) seen) eqn:E.
    + apply existsb_eqb_In in E. rewrite IH.
      split; [tauto|]. intros [[->|H] Hn]; tauto.
    + assert (Hy : ~ In y seen)
        by (intros H; apply existsb_eqb_In in H; congruence).
      simpl; rewrite IH; simpl.
      split.
      * intros [->|[H Hn]]; [tauto|]. split; [tauto|]. intros H'; apply Hn; tauto.
      * intros [[->|H] Hn]; [tauto|].
        destruct (eqb y x) eqn:Eyx.
        -- apply eqb_eq in Eyx; tauto.
        -- right; split; [exact H|].
           intros [->|H']; [|tauto].
           assert (eqb x x = true) by now apply eqb_eq. congruence.
Qed.

Lemma unique_from_NoDup (seen l : list A) : NoDup (unique_from eqb seen l).
Proof.
  revert seen; induction l as [|y t IH]; intros seen; simpl.
  - constructor.
  - destruct (existsb (eqb y) seen); [apply IH|].
    constructor; [|apply IH].
    rewrite unique_from_In; simpl; tauto.
Qed.

Lemma unique_In (l : list A) (x : A) : In x (unique eqb l) <-> In x l.
Proof. unfold unique; rewrite unique_from_In; simpl; tauto. Qed.

Lemma unique_NoDup (l : list A) : NoDup (unique eqb l).
Proof. apply unique_from_NoDup. Qed.
End UniqueFacts.

(** ** The segment classifier *)

Lemma get_segment_first_match (r f m : Z) :
  get_segment r f m = spec_segment r f m.
Proof.
  unfold get_segment, spec_segment, spec_rules, first_match.
  now rewrite !Z.geb_leb.
Qed.

Lemma valid_score_cases (s : Z) :
  Segment.valid_score s -> s = 1 \/ s = 2 \/ s = 3 \/ s = 4.
Proof. unfold Segment.valid_score; lia. Qed.

(** C1.  On every triple of scores between 1 and 4 the classifier answers
    one of the eight group names, the one the first matching rule of the
    ordered list gives; "Others" is the answer exactly for R = 4, F = 2.
    Being a function, it answers the same group on the same triple. *)
Theorem C1_get_segment_first_matching_rule (r f m : Z) :
  Segment.valid_score r -> Segment.valid_score f -> Segment.valid_score m ->
  (exists! g, get_segment r f m = g /\ In g Customer_Groups)
  /\ get_segment r f m = first_match spec_rules "Others" r f m
  /\ (get_segment r f m = "Others"%string <-> r = 4 /\ f = 2).
Proof.
  intros Hr Hf Hm.
  split; [|split].
  - exists (get_segment r f m); split.
    + split; [reflexivity|].
      apply valid_score_cases in Hr, Hf, Hm.
      destruct Hr as [->|[->|[->| ->]]], Hf as [->|[->|[->| ->]]],
               Hm as [->|[->|[->| ->]]]; vm_compute; tauto.
    + intros g [<- _]; reflexivity.
  - apply get_segment_first_match.
  - apply valid_score_cases in Hr, Hf.
    destruct Hr as [->|[->|[->| ->]]], Hf as [->|[->|[->| ->]]];
      unfold get_segment; simpl;
      try (destruct (m =? 4));
      (split; [intros H; try discriminate H; split; reflexivity
              | intros [H1 H2]; try discriminate H1; try discriminate H2; reflexivity]).
Qed.

Lemma C1_witness :
  (exists! g, get_segment 4 2 3 = g /\ In g Customer_Groups)
  /\ get_segment 4 2 3 = first_match spec_rules "Others" 4 2 3
  /\ (get_segment 4 2 3 = "Others"%string <-> 4 = 4 /\ 2 = 2).
Proof.
  apply (C1_get_segment_first_matching_rule 4 2 3);
    unfold Segment.valid_score; lia.
Defined.

(** ** The cleaning step *)

Lemma Qlt_bool_iff (x y : Q) : Qlt_bool x y = true <-> (x < y)%Q.
Proof.
  unfold Qlt_bool. rewrite negb_true_iff.
  split.
  - intros E. apply Qnot_le_lt. intros H. apply Qle_bool_iff in H. congruence.
  - intros H. destruct (Qle_bool y x) eqn:E; [|reflexivity].
    apply Qle_bool_iff in E. exfalso. now apply (Qlt_not_le x y).
Qed.

Lemma Qlt_bool_false (x y : Q) : Qlt_bool x y = false <-> (y <= x)%Q.
Proof.
  unfold Qlt_bool. rewrite negb_false_iff. apply Qle_bool_iff.
Qed.

Lemma Qle_bool_false (x y : Q) : Qle_bool x y = false <-> (y < x)%Q.
Proof.
  rewrite <- Qlt_bool_iff. unfold Qlt_bool.
  destruct (Qle_bool x y); simpl; split; congruence.
Qed.

Lemma filters_compose (df : list RawRow) :
  positive_price (positive_quantity (dropna_customer df)) = filter passes_filters df.
Proof.
  unfold positive_price, positive_quantity, dropna_customer, passes_filters.
  induction df as [|r t IH]; simpl; [reflexivity|].
  destruct (negb (isnull (raw_CustomerID r))); simpl; [|exact IH].
  destruct (0 <? raw_Quantity r); simpl; [|exact IH].
  destruct (Qlt_bool 0 (raw_Price r)); simpl; [now rewrite IH | exact IH].
Qed.

Lemma df_clean_app (df1 df2 : list RawRow) :
  df_clean (df1 ++ df2) = df_clean df1 ++ df_clean df2.
Proof.
  unfold df_clean. rewrite !filters_compose, filter_app. apply flat_map_app.
Qed.

Lemma df_clean_cons (r : RawRow) (df : list RawRow) :
  df_clean (r :: df) = (if passes_filters r then convert_row r else []) ++ df_clean df.
Proof.
  unfold df_clean. rewrite !filters_compose. simpl.
  destruct (passes_filters r); reflexivity.
Qed.

(** *** The date parser against the description of the format *)

Lemma digit_is_digit (c : ascii) (n : Z) : digit c = Some n <-> is_digit c n.
Proof.
  split.
  - destruct c as [[] [] [] [] [] [] [] []]; vm_compute; intros E;
      try discriminate E; injection E as <-;
      repeat (try (left; reflexivity); right).
  - unfold is_digit, decimal_digits. simpl.
    intros H. repeat (destruct H as [H|H]; [injection H as <- <-; reflexivity|]).
    destruct H.
Qed.

Lemma is_blank_white_space (c : ascii) : is_blank c = true <-> is_white_space c.
Proof.
  split.
  - destruct c as [[] [] [] [] [] [] [] []]; vm_compute; intros E;
      try discriminate E;
      repeat (try (left; reflexivity); right).
  - unfold is_white_space, white_space_codes. simpl.
    intros H. unfold is_blank.
    repeat (destruct H as [H|H]; [rewrite <- H; reflexivity|]).
    destruct H.
Qed.

Lemma digit_not_blank (c : ascii) (n : Z) : digit c = Some n -> is_blank c = false.
Proof.
  unfold digit, is_blank.
  destruct ((48 <=? nat_of_ascii c)%nat && (nat_of_ascii c <=? 57)%nat) eqn:E;
    [|discriminate].
  intros _. apply andb_true_iff in E. destruct E as [E1 E2].
  apply Nat.leb_le in E1, E2.
  repeat rewrite orb_false_iff. repeat rewrite andb_false_iff.
  repeat rewrite Nat.leb_gt. repeat rewrite Nat.eqb_neq. lia.
Qed.

Lemma digits12_sound (s rest : list ascii) (n : Z) :
  digits12 s = Some (n, rest) -> exists f, s = f ++ rest /\ field12 f n.
Proof.
  unfold digits12.
  destruct s as [|c1 s]; [discriminate|].
  destruct (digit c1) as [d1|] eqn:E1; [|discriminate].
  apply digit_is_digit in E1.
  destruct s as [|c2 s].
  - intros [= <- <-]. exists [c1]. split; [reflexivity | now constructor].
  - destruct (digit c2) as [d2|] eqn:E2.
    + apply digit_is_digit in E2. intros [= <- <-].
      exists [c1; c2]. split; [reflexivity | now constructor].
    + intros [= <- <-]. exists [c1]. split; [reflexivity | now constructor].
Qed.

Lemma digits12_complete (f rest : list ascii) (n : Z) :
  field12 f n -> no_digit_ahead rest -> digits12 (f ++ rest) = Some (n, rest).
Proof.
  intros Hf Hrest. destruct Hf as [c n H | c1 c2 n1 n2 H1 H2]; simpl.
  - apply digit_is_digit in H. rewrite H.
    destruct rest as [|c' rest]; [reflexivity|].
    simpl in Hrest. now rewrite Hrest.
  - apply digit_is_digit in H1, H2. now rewrite H1, H2.
Qed.

Lemma day_digits_sound (s rest : list ascii) (n : Z) :
  day_digits s = Some (n, rest) -> exists f, s = f ++ rest /\ day_field f n.
Proof.
  unfold day_digits.
  destruct s as [|c1 s]; [discriminate|].
  destruct (Ascii.eqb_spec c1 " ") as [->|_].
  - destruct s as [|c2 s]; [discriminate|].
    destruct (digit c2) as [d2|] eqn:E2; [|discriminate].
    apply digit_is_digit in E2. intros [= <- <-].
    exists [" "%char; c2]. split; [reflexivity | now apply day_padded].
  - intros H. apply digits12_sound in H. destruct H as (f & E & Hf).
    exists f. split; [exact E | now apply day_plain].
Qed.

Lemma field12_head (f : list ascii) (n : Z) :
  field12 f n -> exists c k t, f = c :: t /\ digit c = Some k.
Proof.
  intros [c k H | c1 c2 n1 n2 H1 H2].
  - exists c, k, []. split; [reflexivity | now apply digit_is_digit].
  - exists c1, n1, [c2]. split; [reflexivity | now apply digit_is_digit].
Qed.

Lemma day_digits_complete (f rest : list ascii) (n : Z) :
  day_field f n -> no_digit_ahead rest -> day_digits (f ++ rest) = Some (n, rest).
Proof.
  intros Hf Hrest. destruct Hf as [f n Hf | c n H].
  - destruct (field12_head f n Hf) as (c & k & t & -> & Hc).
    unfold day_digits. cbn [app].
    destruct (Ascii.eqb_spec c " ") as [->|_]; [discriminate Hc|].
    now apply (digits12_complete (c :: t)).
  - apply digit_is_digit in H. simpl. now rewrite H.
Qed.

Lemma digits4_sound (s rest : list ascii) (n : Z) :
  digits4 s = Some (n, rest) -> exists f, s = f ++ rest /\ year_field f n.
Proof.
  unfold digits4.
  destruct s as [|c1 [|c2 [|c3 [|c4 s]]]]; try discriminate.
  destruct (digit c1) as [d1|] eqn:E1; [|discriminate].
  destruct (digit c2) as [d2|] eqn:E2; [|discriminate].
  destruct (digit c3) as [d3|] eqn:E3; [|discriminate].
  destruct (digit c4) as [d4|] eqn:E4; [|discriminate].
  apply digit_is_digit in E1, E2, E3, E4. intros [= <- <-].
  exists [c1; c2; c3; c4]. split; [reflexivity | now constructor].
Qed.

Lemma digits4_complete (f rest : list ascii) (n : Z) :
  year_field f n -> digits4 (f ++ rest) = Some (n, rest).
Proof.
  intros [c1 c2 c3 c4 n1 n2 n3 n4 H1 H2 H3 H4].
  apply digit_is_digit in H1, H2, H3, H4. simpl.
  now rewrite H1, H2, H3, H4.
Qed.

Lemma literal_spec (c : ascii) (s rest : list ascii) :
  literal c s = Some rest <-> s = c :: rest.
Proof.
  unfold literal. destruct s as [|c' s].
  - split; discriminate.
  - destruct (Ascii.eqb_spec c c') as [->|N]; split.
    + now intros [= ->].
    + now intros [= ->].
    + discriminate.
    + intros [= E _]. now elim N.
Qed.

Lemma skip_blanks_sound (s : list ascii) :
  exists ws, s = ws ++ skip_blanks s /\ Forall is_white_space ws.
Proof.
  induction s as [|c s (ws & E & Hws)]; simpl.
  - exists []. split; [reflexivity | constructor].
  - destruct (is_blank c) eqn:B.
    + exists (c :: ws). split; [simpl; now rewrite <- E|].
      constructor; [now apply is_blank_white_space | exact Hws].
    + exists []. split; [reflexivity | constructor].
Qed.

Lemma blanks_sound (s rest : list ascii) :
  blanks s = Some rest -> exists ws, s = ws ++ rest /\ white_space ws.
Proof.
  unfold blanks. destruct s as [|c s]; [discriminate|].
  destruct (is_blank c) eqn:B; [|discriminate].
  intros [= <-]. destruct (skip_blanks_sound s) as (ws & E & Hws).
  exists (c :: ws). split; [simpl; now rewrite <- E|].
  split; [discriminate|].
  constructor; [now apply is_blank_white_space | exact Hws].
Qed.

Lemma skip_blanks_complete (ws rest : list ascii) :
  Forall is_white_space ws -> no_blank_ahead rest ->
  skip_blanks (ws ++ rest) = rest.
Proof.
  intros Hws Hrest. induction Hws as [|c ws Hc _ IH]; simpl.
  - destruct rest as [|c rest]; [reflexivity|].
    simpl in Hrest. simpl. now rewrite Hrest.
  - apply is_blank_white_space in Hc. now rewrite Hc.
Qed.

Lemma blanks_complete (ws rest : list ascii) :
  white_space ws -> no_blank_ahead rest -> blanks (ws ++ rest) = Some rest.
Proof.
  intros [Hne Hws] Hrest. destruct ws as [|c ws]; [now elim Hne|].
  inversion Hws as [|? ? Hc Hws']; subst. simpl.
  apply is_blank_white_space in Hc. rewrite Hc.
  now rewrite skip_blanks_complete.
Qed.

Lemma is_leap_leap_year (y : Z) : is_leap y = leap_year y.
Proof.
  unfold is_leap, leap_year.
  destruct (Z.eqb_spec (y mod 4) 0), (Z.eqb_spec (y mod 100) 0),
    (Z.eqb_spec (y mod 400) 0);
    simpl; try reflexivity; exfalso; Z.div_mod_to_equations; lia.
Qed.

Lemma month_cases (m : Z) :
  1 <= m <= 12 ->
  m = 1 \/ m = 2 \/ m = 3 \/ m = 4 \/ m = 5 \/ m = 6
  \/ m = 7 \/ m = 8 \/ m = 9 \/ m = 10 \/ m = 11 \/ m = 12.
Proof. lia. Qed.

Lemma days_in_month_table (y m : Z) :
  1 <= m <= 12 ->
  days_in_month y m = nth (Z.to_nat (m - 1)) (month_lengths y) 0.
Proof.
  intros Hm. unfold days_in_month, month_lengths. rewrite is_leap_leap_year.
  destruct (month_cases m Hm)
    as [->|[->|[->|[->|[->|[->|[->|[->|[->|[->|[->| ->]]]]]]]]]]];
    reflexivity.
Qed.

Lemma era_days (y : Z) :
  y / 400 * 146097
  + ((y - y / 400 * 400) * 365 + (y - y / 400 * 400) / 4 - (y - y / 400 * 400) / 100)
  = 365 * y + y / 4 - y / 100 + y / 400.
Proof.
  Z.div_mod_to_equations. lia.
Qed.

Lemma leap_day (y : Z) :
  y / 4 - y / 100 + y / 400
  = (y - 1) / 4 - (y - 1) / 100 + (y - 1) / 400 + (if leap_year y then 1 else 0).
Proof.
  unfold leap_year.
  destruct (Z.eqb_spec (y mod 4) 0), (Z.eqb_spec (y mod 100) 0),
    (Z.eqb_spec (y mod 400) 0);
    simpl; Z.div_mod_to_equations; lia.
Qed.

Lemma days_from_civil_day_number (y m d : Z) :
  1 <= m <= 12 -> days_from_civil y m d = day_number y m d - epoch.
Proof.
  intros Hm.
  unfold days_from_civil, day_number, month_lengths, epoch. cbv zeta.
  assert (E := fun y' doy => f_equal (fun v => v + doy - 719468) (era_days y')).
  cbv beta in E.
  pose proof (leap_day y) as L.
  destruct (month_cases m Hm)
    as [->|[->|[->|[->|[->|[->|[->|[->|[->|[->|[->| ->]]]]]]]]]]];
    match goal with
    | |- context [if ?a <=? ?b then _ else _] =>
        let v := eval vm_compute in (a <=? b) in change (a <=? b) with v
    end;
    match goal with
    | |- context [if ?a <? ?b then _ else _] =>
        let v := eval vm_compute in (a <? b) in change (a <? b) with v
    end;
    cbv iota;
    match goal with
    | |- context [(153 * ?a + 2) / 5] =>
        let v := eval vm_compute in ((153 * a + 2) / 5) in
        change ((153 * a + 2) / 5) with v
    end;
    match goal with
    | |- context [Z.to_nat ?a] =>
        let v := eval vm_compute in (Z.to_nat a) in change (Z.to_nat a) with v
    end;
    cbn [firstn fold_right];
    match goal with
    | |- ?e * 146097 + (?yoe * 365 + ?a - ?b + ?doy) - 719468 = _ =>
        transitivity (e * 146097 + (yoe * 365 + a - b) + doy - 719468); [ring|]
    end;
    rewrite E; destruct (leap_year y); lia.
Qed.

Lemma in_bounds_representable (t : Z) : in_bounds t = true <-> representable t.
Proof.
  unfold in_bounds, representable.
  rewrite andb_true_iff, !Z.leb_le.
  change (2 ^ 63) with 9223372036854775808.
  change (10 ^ 9) with 1000000000. lia.
Qed.

Lemma no_digit_slash (s : list ascii) : no_digit_ahead ("/"%char :: s).
Proof. reflexivity. Qed.

Lemma no_digit_colon (s : list ascii) : no_digit_ahead (":"%char :: s).
Proof. reflexivity. Qed.

(** The parser accepts exactly the strings in the format that name a
    minute within the range, and answers that minute. *)
Theorem to_datetime_converts (s : string) (t : Z) :
  to_datetime s = Some t <-> converts_to s t.
Proof.
  unfold to_datetime, converts_to, in_format. split.
  - destruct (day_digits (list_ascii_of_string s)) as [[d s1]|] eqn:E1;
      [|discriminate].
    destruct (literal "/" s1) as [s2|] eqn:E2; [|discriminate].
    destruct (digits12 s2) as [[m s3]|] eqn:E3; [|discriminate].
    destruct (literal "/" s3) as [s4|] eqn:E4; [|discriminate].
    destruct (digits4 s4) as [[y s5]|] eqn:E5; [|discriminate].
    destruct (blanks s5) as [s6|] eqn:E6; [|discriminate].
    destruct (digits12 s6) as [[H s7]|] eqn:E7; [|discriminate].
    destruct (literal ":" s7) as [s8|] eqn:E8; [|discriminate].
    destruct (digits12 s8) as [[M s9]|] eqn:E9; [|discriminate].
    destruct s9 as [|c s9]; [|discriminate].
    destruct ((1 <=? m) && (m <=? 12) && (1 <=? d) && (d <=? days_in_month y m)
              && (H <=? 23) && (M <=? 59)) eqn:C; [|discriminate].
    cbv zeta.
    destruct (in_bounds (days_from_civil y m d * 1440 + H * 60 + M)) eqn:B;
      [|discriminate].
    intros [= <-].
    repeat rewrite andb_true_iff in C. repeat rewrite Z.leb_le in C.
    destruct C as (((((Hm1 & Hm2) & Hd1) & Hd2) & HH) & HM).
    apply day_digits_sound in E1. destruct E1 as (df & E1 & Hdf).
    apply literal_spec in E2, E4, E8.
    apply digits12_sound in E3, E7, E9.
    destruct E3 as (mf & E3 & Hmf), E7 as (Hf & E7 & HHf), E9 as (Mf & E9 & HMf).
    apply digits4_sound in E5. destruct E5 as (yf & E5 & Hyf).
    apply blanks_sound in E6. destruct E6 as (ws & E6 & Hws).
    rewrite app_nil_r in E9. subst.
    rewrite days_in_month_table in Hd2 by lia.
    assert (Ht : days_from_civil y m d * 1440 + H * 60 + M = minute_of y m d H M).
    { unfold minute_of. rewrite days_from_civil_day_number by lia. ring. }
    rewrite Ht in B |- *. apply in_bounds_representable in B.
    split; [|exact B].
    exists df, mf, yf, ws, Hf, Mf, d, m, y, H, M.
    split; [exact E1|].
    unfold calendar_date.
    repeat (split; [first [assumption | lia]|]). reflexivity.
  - intros [(df & mf & yf & ws & Hf & Mf & d & m & y & H & M & E & Hdf & Hmf & Hyf
             & Hws & HHf & HMf & [Hm [Hd1 Hd2]] & HH & HM & ->) B].
    rewrite E.
    rewrite (day_digits_complete df _ d Hdf (no_digit_slash _)).
    cbn [literal]. rewrite Ascii.eqb_refl.
    rewrite (digits12_complete mf _ m Hmf (no_digit_slash _)).
    cbn [literal]. rewrite Ascii.eqb_refl.
    rewrite (digits4_complete yf _ y Hyf).
    rewrite blanks_complete; [|exact Hws|].
    2:{ destruct (field12_head Hf H HHf) as (c & k & tl & -> & Hc).
        simpl. now apply digit_not_blank with k. }
    rewrite (digits12_complete Hf _ H HHf (no_digit_colon _)).
    cbn [literal]. rewrite Ascii.eqb_refl.
    rewrite <- (app_nil_r Mf) at 1.
    rewrite (digits12_complete Mf [] M HMf I).
    rewrite <- days_in_month_table in Hd2 by exact Hm.
    replace ((1 <=? m) && (m <=? 12) && (1 <=? d) && (d <=? days_in_month y m)
             && (H <=? 23) && (M <=? 59)) with true.
    2:{ symmetry. repeat rewrite andb_true_iff. repeat rewrite Z.leb_le. lia. }
    cbv zeta.
    assert (Ht : days_from_civil y m d * 1440 + H * 60 + M = minute_of y m d H M).
    { unfold minute_of. rewrite days_from_civil_day_number by exact Hm. ring. }
    rewrite Ht. apply in_bounds_representable in B. now rewrite B.
Qed.

Lemma converts_iff (s : string) :
  (exists t, converts_to s t) <-> to_datetime s <> None.
Proof.
  split.
  - intros [t H]. apply to_datetime_converts in H. congruence.
  - destruct (to_datetime s) as [t|] eqn:E; [|congruence].
    intros _. exists t. now apply to_datetime_converts.
Qed.

(** Dates of the file, a date with other white space, a day padded with
    a space, and strings that become NaT: seconds, another format, the
    29th of February of a common year, the first minute before and
    after the range of the timestamps. *)
Lemma to_datetime_examples :
  to_datetime "01/12/2010 08:26" = Some 21519866
  /\ to_datetime "1/2/2010 8:6" = Some 21083526
  /\ to_datetime (String.append "01/12/2010"
                   (String (ascii_of_nat 28) (String (ascii_of_nat 160) "08:26")))
     = Some 21519866
  /\ to_datetime " 1/12/2010 08:26" = Some 21519866
  /\ to_datetime "01/12/2010 08:26:00" = None
  /\ to_datetime "2010-12-01 08:34" = None
  /\ to_datetime "29/02/2011 08:26" = None
  /\ to_datetime "21/09/1677 00:12" = None
  /\ to_datetime "21/09/1677 00:13" = Some (-153722867)
  /\ to_datetime "11/04/2262 23:47" = Some 153722867
  /\ to_datetime "11/04/2262 23:48" = None.
Proof. repeat split; reflexivity. Qed.

(** *** The rows *)

Lemma well_formed_iff (r : RawRow) :
  well_formed r <->
  passes_filters r = true /\ exists row, convert_row r = [row].
Proof.
  unfold well_formed, passes_filters, convert_row.
  rewrite converts_iff.
  rewrite !andb_true_iff, Z.ltb_lt, Qlt_bool_iff.
  destruct (raw_CustomerID r) as [c|], (to_datetime (raw_InvoiceDate r)) as [t|];
    simpl; split.
  - intros (_ & Hq & Hp & _). repeat split; auto. eexists; reflexivity.
  - intros (((_ & Hq) & Hp) & _). repeat split; auto; discriminate.
  - intros (_ & _ & _ & H); now elim H.
  - intros (_ & row & H); discriminate H.
  - intros (H & _); now elim H.
  - intros (((H & _) & _) & _); discriminate H.
  - intros (H & _); now elim H.
  - intros (((H & _) & _) & _); discriminate H.
Qed.

Lemma convert_row_cleaned (r : RawRow) (row : Row) :
  passes_filters r = true -> In row (convert_row r) -> cleaned_from r row.
Proof.
  unfold passes_filters, convert_row, cleaned_from.
  rewrite !andb_true_iff, Z.ltb_lt, Qlt_bool_iff.
  intros [[_ Hq] Hp] Hrow.
  destruct (raw_CustomerID r) as [c|]; [|now elim Hrow].
  destruct (to_datetime (raw_InvoiceDate r)) as [t|] eqn:Ht; [|now elim Hrow].
  apply to_datetime_converts in Ht.
  destruct Hrow as [<-|[]]. simpl.
  repeat (split; [solve [auto]|]).
  split; [|exact Ht].
  apply Qmult_lt_0_compat; [|exact Hp].
  unfold Qlt; simpl. lia.
Qed.



(** ** The aggregation step *)

Lemma fold_left_Zmax_ge (t : list Z) (a : Z) :
  a <= fold_left Z.max t a /\ forall y, In y t -> y <= fold_left Z.max t a.
Proof.
  revert a; induction t as [|x t IH]; intros a; simpl.
  - split; [lia | tauto].
  - destruct (IH (Z.max a x)) as [H1 H2]. split; [lia|].
    intros y [<-|Hy]; [lia | now apply H2].
Qed.

Lemma fold_left_Zmax_In (t : list Z) (a : Z) : In (fold_left Z.max t a) (a :: t).
Proof.
  revert a; induction t as [|x t IH]; intros a; simpl.
  - now left.
  - destruct (IH (Z.max a x)) as [H|H]; [|tauto].
    rewrite <- H. destruct (Z.max_spec a x) as [[_ ->]|[_ ->]]; tauto.
Qed.

Lemma Timestamp_max_spec (x : list Z) (last : Z) :
  Timestamp_max x = Some last -> In last x /\ forall y, In y x -> y <= last.
Proof.
  destruct x as [|a t]; simpl; [discriminate|].
  intros [= <-]. split.
  - apply fold_left_Zmax_In.
  - destruct (fold_left_Zmax_ge t a) as [H1 H2].
    intros y [<-|Hy]; auto.
Qed.

Lemma group_keys_In (df : list Row) (k : Z) :
  In k (group_keys df) <-> exists r, In r df /\ CustomerID r = k.
Proof.
  unfold group_keys.
  rewrite sort_values_In, (unique_In Z.eqb Z.eqb_eq), in_map_iff.
  split; intros (r & H1 & H2); exists r; auto.
Qed.

Lemma group_In (df : list Row) (k : Z) (r : Row) :
  In r (group df k) <-> In r df /\ CustomerID r = k.
Proof. unfold group. now rewrite filter_In, Z.eqb_eq. Qed.

Lemma rfm_In (df : list Row) (c : CustomerMetrics) :
  In c (rfm df) ->
  exists snapshot, snapshot_date df = Some snapshot
    /\ In (Customer c) (group_keys df)
    /\ c = agg snapshot df (Customer c).
Proof.
  unfold rfm. destruct (snapshot_date df) as [s|]; [|intros []].
  rewrite in_map_iff. intros (k & <- & Hk).
  exists s. simpl. auto.
Qed.



(** C9.  The snapshot date is one day after the last purchase of the
    whole table, so every customer's Recency is at least one day. *)
Theorem C9_recency_at_least_one_day (df : list Row) (c : CustomerMetrics) :
  In c (rfm df) -> 1 <= Recency c.
Proof.
  intros Hc. apply rfm_In in Hc. destruct Hc as (s & Hs & Hk & ->).
  simpl. unfold recency_of, snapshot_date in *.
  destruct (Timestamp_max (map InvoiceDate df)) as [last|] eqn:Hall;
    [|discriminate]. simpl in Hs. injection Hs as <-.
  apply Timestamp_max_spec in Hall. destruct Hall as [_ Hall].
  apply group_keys_In in Hk. destruct Hk as (r & Hr & Hkey).
  destruct (Timestamp_max (map InvoiceDate (group df (CustomerID r)))) as [mine|] eqn:Hg;
    rewrite <- Hkey.
  - rewrite Hg. apply Timestamp_max_spec in Hg. destruct Hg as [Hin _].
    apply in_map_iff in Hin. destruct Hin as (r' & <- & Hr').
    apply group_In in Hr'. destruct Hr' as [Hr' _].
    assert (InvoiceDate r' <= last) by (apply Hall, in_map, Hr').
    unfold days, one_day. apply Z.div_le_lower_bound; lia.
  - exfalso.
    assert (Hin : In r (group df (CustomerID r))) by (apply group_In; auto).
    destruct (group df (CustomerID r)); [now elim Hin | discriminate Hg].
Qed.

Lemma C9_witness : 1 <= Recency five_lines_metrics.
Proof.
  apply (C9_recency_at_least_one_day five_lines five_lines_metrics).
  vm_compute. left; reflexivity.
Defined.

(** C7.  A customer's Frequency is the number of distinct invoice
    identifiers among the customer's rows: the length of a list without
    repetition that holds exactly these identifiers.  When all the rows
    of the customer carry one invoice identifier, Frequency is 1 however
    many rows there are. *)
Theorem C7_frequency_counts_distinct_invoices (df : list Row) (c : CustomerMetrics) :
  In c (rfm df) ->
  (exists distinct,
      NoDup distinct
      /\ (forall i, In i distinct <->
                    exists r, In r df /\ CustomerID r = Customer c /\ Invoice r = i)
      /\ Frequency c = Z.of_nat (length distinct))
  /\ (forall i, (forall r, In r df -> CustomerID r = Customer c -> Invoice r = i) ->
                Frequency c = 1).
Proof.
  intros Hc. apply rfm_In in Hc. destruct Hc as (s & _ & Hk & Hc).
  remember (Customer c) as k eqn:Hkc.
  set (invoices := unique String.eqb (map Invoice (group df k))).
  assert (Hfreq : Frequency c = Z.of_nat (length invoices)) by (rewrite Hc; reflexivity).
  clear Hc Hkc.
  assert (Hin : forall i, In i invoices <->
                          exists r, In r df /\ CustomerID r = k /\ Invoice r = i).
  { intros i. unfold invoices.
    rewrite (unique_In String.eqb String.eqb_eq), in_map_iff.
    split.
    - intros (r & <- & Hr). apply group_In in Hr. exists r; tauto.
    - intros (r & Hr & Hkey & <-). exists r. split; [reflexivity|].
      apply group_In; auto. }
  assert (Hnd : NoDup invoices) by apply unique_NoDup, String.eqb_eq.
  split.
  - exists invoices. auto.
  - intros i Hsame. rewrite Hfreq.
    apply group_keys_In in Hk. destruct Hk as (r0 & Hr0 & Hkey0).
    assert (Hi : In i invoices).
    { apply Hin. exists r0. repeat split; auto. }
    assert (Hall : forall j, In j invoices -> j = i).
    { intros j Hj. apply Hin in Hj. destruct Hj as (r & Hr & Hkey & <-). auto. }
    destruct invoices as [|a [|b rest]]; [now elim Hi | reflexivity |].
    exfalso. inversion Hnd as [|? ? Hnotin _]; subst.
    apply Hnotin. left.
    rewrite (Hall a), (Hall b); simpl; auto.
Qed.

Lemma C7_witness :
  (exists distinct,
      NoDup distinct
      /\ (forall i, In i distinct <->
                    exists r, In r five_lines
                              /\ CustomerID r = Customer five_lines_metrics
                              /\ Invoice r = i)
      /\ Frequency five_lines_metrics = Z.of_nat (length distinct))
  /\ (forall i, (forall r, In r five_lines ->
                           CustomerID r = Customer five_lines_metrics -> Invoice r = i) ->
                Frequency five_lines_metrics = 1).
Proof.
  apply (C7_frequency_counts_distinct_invoices five_lines five_lines_metrics).
  vm_compute. left; reflexivity.
Defined.

(** ** Bin edges and bin indices *)

Local Open Scope Q_scope.

Lemma Qeq_bool_false (x y : Q) : Qeq_bool x y = false <-> ~ x == y.
Proof.
  rewrite <- Qeq_bool_iff. destruct (Qeq_bool x y); split; congruence.
Qed.

Ltac decide_Q :=
  repeat match goal with
  | |- context [Qlt_bool ?a ?b] =>
      first [ rewrite (proj2 (Qlt_bool_iff a b)) by lra
            | rewrite (proj2 (Qlt_bool_false a b)) by lra ]
  | |- context [Qle_bool ?a ?b] =>
      first [ rewrite (proj2 (Qle_bool_iff a b)) by lra
            | rewrite (proj2 (Qle_bool_false a b)) by lra ]
  | |- context [Qeq_bool ?a ?b] =>
      first [ rewrite (proj2 (Qeq_bool_iff a b)) by lra
            | rewrite (proj2 (Qeq_bool_false a b)) by lra ]
  end.

(** With five strictly increasing edges, a value between the first and
    the last edge falls in the bucket its comparison with the three
    inner edges says. *)
Lemma bin_label_bucket (e0 e1 e2 e3 e4 : Q) (l1 l2 l3 l4 : Z) (x : Q) :
  e0 < e1 -> e1 < e2 -> e2 < e3 -> e3 < e4 -> e0 <= x -> x <= e4 ->
  take_label [l1; l2; l3; l4] (bin_id [e0; e1; e2; e3; e4] true x)
  = Some (bucket e1 e2 e3 l1 l2 l3 l4 x).
Proof.
  intros H01 H12 H23 H34 Hlo Hhi.
  unfold bin_id, bucket, searchsorted_left, hd.
  destruct (Qlt_le_dec e0 x) as [L0|L0];
    [destruct (Qlt_le_dec e1 x) as [L1|L1];
     [destruct (Qlt_le_dec e2 x) as [L2|L2];
      [destruct (Qlt_le_dec e3 x) as [L3|L3]|]|]|];
    decide_Q; reflexivity.
Qed.

Lemma strictly_increasing_5 (e0 e1 e2 e3 e4 : Q) :
  strictly_increasing [e0; e1; e2; e3; e4] <->
  e0 < e1 /\ e1 < e2 /\ e2 < e3 /\ e3 < e4.
Proof.
  unfold strictly_increasing. split.
  - intros H.
    repeat match goal with
           | H : StronglySorted _ (_ :: _) |- _ => inversion H; clear H; subst
           | H : Forall _ (_ :: _) |- _ => inversion H; clear H; subst
           end.
    tauto.
  - intros (H01 & H12 & H23 & H34).
    repeat (constructor; [|repeat constructor; lra]).
    constructor.
Qed.

(** No repeated edge: every edge differs from the ones seen before. *)
Lemma unique_from_full (seen l : list Q) :
  length (unique_from Qeq_bool seen l) = length l ->
  ForallOrdPairs (fun a b => ~ a == b) l.
Proof.
  revert seen; induction l as [|x t IH]; intros seen; simpl.
  - constructor.
  - destruct (existsb (Qeq_bool x) seen) eqn:E.
    + intros H. pose proof (unique_from_length Qeq_bool seen t). lia.
    + simpl. intros H. injection H as H.
      constructor; [|now apply (IH (x :: seen))].
      clear IH E. revert seen H.
      assert (G : forall seen', In x seen' ->
                  length (unique_from Qeq_bool seen' t) = length t ->
                  Forall (fun b => ~ x == b) t).
      { induction t as [|y t IHt]; intros seen' Hx; simpl; [constructor|].
        destruct (existsb (Qeq_bool y) seen') eqn:Ey.
        - intros H. pose proof (unique_from_length Qeq_bool seen' t). lia.
        - simpl. intros H. injection H as H. constructor.
          + intros Hxy. apply not_true_iff_false in Ey. apply Ey.
            apply existsb_exists. exists x. split; [exact Hx|].
            apply Qeq_bool_iff. now symmetry.
          + apply (IHt (y :: seen')); [now right | exact H]. }
      intros seen H. apply (G (x :: seen)); [now left | exact H].
Qed.

Lemma is_monotonic_increasing_sorted (bins : list Q) :
  is_monotonic_increasing bins = true -> StronglySorted Qle bins.
Proof.
  intros H. apply Sorted_StronglySorted; [exact Qle_trans|].
  induction bins as [|a [|b t] IH]; simpl in *.
  - constructor.
  - repeat constructor.
  - apply andb_true_iff in H. destruct H as [Hab Ht].
    constructor; [now apply IH|]. constructor. now apply Qle_bool_iff.
Qed.

Lemma sorted_distinct_strict (bins : list Q) :
  StronglySorted Qle bins ->
  ForallOrdPairs (fun a b => ~ a == b) bins ->
  strictly_increasing bins.
Proof.
  unfold strictly_increasing.
  induction 1 as [|a t Hs IH Ha]; intros Hd.
  - constructor.
  - inversion Hd as [|? ? Hda Hdt]; subst.
    constructor; [now apply IH|].
    rewrite Forall_forall in *. intros b Hb.
    specialize (Ha b Hb). specialize (Hda b Hb).
    apply Qle_lteq in Ha. tauto.
Qed.

Lemma strictly_increasing_monotonic (bins : list Q) :
  strictly_increasing bins ->
  is_monotonic_increasing bins = true
  /\ length (unique Qeq_bool bins) = length bins.
Proof.
  unfold strictly_increasing, unique. intros H. split.
  - induction H as [|a t Hs IH Ha]; [reflexivity|].
    destruct t as [|b t']; [reflexivity|].
    change (is_monotonic_increasing (a :: b :: t'))
      with (Qle_bool a b && is_monotonic_increasing (b :: t'))%bool.
    inversion Ha; subst. rewrite IH, andb_true_r.
    apply Qle_bool_iff. now apply Qlt_le_weak.
  - assert (G : forall seen,
               Forall (fun s => Forall (Qlt s) bins) seen ->
               length (unique_from Qeq_bool seen bins) = length bins).
    { induction H as [|a t Hs IH Ha]; intros seen Hseen; [reflexivity|].
      simpl. destruct (existsb (Qeq_bool a) seen) eqn:E.
      - exfalso. apply existsb_exists in E. destruct E as (s & Hs' & E).
        apply Qeq_bool_iff in E. rewrite Forall_forall in Hseen.
        specialize (Hseen s Hs'). inversion Hseen; subst. lra.
      - simpl. f_equal. apply IH. constructor; [exact Ha|].
        rewrite Forall_forall in *. intros s Hs'.
        specialize (Hseen s Hs'). now inversion Hseen. }
    apply G. constructor.
Qed.

(** What [_bins_to_cuts] answers on five edges and four distinct labels. *)
Lemma bins_to_cuts_5 (x : list Q) (e0 e1 e2 e3 e4 : Q) (l1 l2 l3 l4 : Z)
      (scores : list (option Z)) :
  has_duplicates_Z [l1; l2; l3; l4] = false ->
  bins_to_cuts x [e0; e1; e2; e3; e4] [l1; l2; l3; l4] true = Ok scores ->
  ForallOrdPairs (fun a b => ~ a == b) [e0; e1; e2; e3; e4]
  /\ scores = map (fun v => take_label [l1; l2; l3; l4]
                                       (bin_id [e0; e1; e2; e3; e4] true v)) x.
Proof.
  intros Hl. unfold bins_to_cuts. rewrite Hl.
  destruct (length (unique Qeq_bool [e0; e1; e2; e3; e4]) <? 5)%nat eqn:E;
    cbn [length Nat.eqb negb andb Nat.sub]; rewrite E; cbn [andb negb];
    [discriminate|].
  intros [= <-]. split; [|reflexivity].
  apply Nat.ltb_ge in E.
  apply (unique_from_full []).
  pose proof (unique_from_length Qeq_bool [] [e0; e1; e2; e3; e4]) as L.
  unfold unique in E. cbn [length] in *. lia.
Qed.

Lemma bins_to_cuts_strict (x : list Q) (e0 e1 e2 e3 e4 : Q) (l1 l2 l3 l4 : Z) :
  has_duplicates_Z [l1; l2; l3; l4] = false ->
  strictly_increasing [e0; e1; e2; e3; e4] ->
  bins_to_cuts x [e0; e1; e2; e3; e4] [l1; l2; l3; l4] true
  = Ok (map (fun v => take_label [l1; l2; l3; l4]
                                 (bin_id [e0; e1; e2; e3; e4] true v)) x).
Proof.
  intros Hl Hs. apply strictly_increasing_monotonic in Hs. destruct Hs as [_ Hu].
  unfold bins_to_cuts. rewrite Hl, Hu. reflexivity.
Qed.

(** ** Quantiles *)

Lemma sorted_column (x : list Q) : StronglySorted Qle (sort_values Qle_bool x).
Proof.
  apply Sorted_StronglySorted; [exact Qle_trans|].
  apply sort_values_sorted.
  - intros a b. apply Qle_bool_iff.
  - intros a b H. apply Qle_bool_false in H. now apply Qlt_le_weak.
Qed.

Lemma nth_sorted (s : list Q) :
  StronglySorted Qle s ->
  forall i j, (i <= j < length s)%nat -> nth i s 0 <= nth j s 0.
Proof.
  induction 1 as [|a t Hs IH Ha]; intros i j Hij; simpl in Hij; [lia|].
  destruct i as [|i], j as [|j]; simpl; try lia.
  - apply Qle_refl.
  - rewrite Forall_forall in Ha. apply Ha, nth_In. lia.
  - apply IH. lia.
Qed.

Lemma inject_Z_nonneg (z : Z) : (0 <= z)%Z -> 0 <= inject_Z z.
Proof. intros H. unfold Qle; simpl. lia. Qed.

Lemma inject_Z_succ (z : Z) : inject_Z (z + 1) == inject_Z z + 1.
Proof. rewrite inject_Z_plus. reflexivity. Qed.

(** The position of a quantile lies between two neighbours of the
    sorted column. *)
Lemma floor_position (n : Z) (p : Q) :
  (1 <= n)%Z -> 0 <= p -> p <= inject_Z (n - 1) ->
  (0 <= Qfloor p <= n - 1)%Z
  /\ inject_Z (Qfloor p) <= p
  /\ p < inject_Z (Qfloor p) + 1.
Proof.
  intros Hn H0 H1. repeat split.
  - change 0%Z with (Qfloor 0). now apply Qfloor_resp_le.
  - rewrite <- (Qfloor_Z (n - 1)). now apply Qfloor_resp_le.
  - apply Qfloor_le.
  - rewrite <- inject_Z_succ. apply Qlt_floor.
Qed.

Lemma interpolation_between (a b g : Q) :
  a <= b -> 0 <= g -> g <= 1 -> a <= a + (b - a) * g /\ a + (b - a) * g <= b.
Proof. intros. split; nra. Qed.

Lemma quantile_monotone (x : list Q) (q q' : Q) :
  x <> [] -> 0 <= q -> q <= q' -> q' <= 1 ->
  quantile x q <= quantile x q'.
Proof.
  intros Hx H0 Hqq H1. unfold quantile.
  pose proof (sorted_column x) as Hs.
  pose proof (sort_values_length Qle_bool x) as Hlen.
  set (s := sort_values Qle_bool x) in *.
  set (n := Z.of_nat (length s)).
  assert (Hn : (1 <= n)%Z).
  { unfold n. rewrite Hlen. destruct x; [congruence | simpl; lia]. }
  pose proof (inject_Z_nonneg (n - 1) ltac:(lia)) as Hn0.
  set (p := inject_Z (n - 1) * q). set (p' := inject_Z (n - 1) * q').
  assert (Hp0 : 0 <= p) by (unfold p; nra).
  assert (Hpp : p <= p') by (unfold p, p'; nra).
  assert (Hp1 : p' <= inject_Z (n - 1)) by (unfold p'; nra).
  destruct (floor_position n p Hn Hp0 ltac:(lra)) as ((L0 & L1) & G0 & G1).
  destruct (floor_position n p' Hn ltac:(lra) Hp1) as ((L0' & L1') & G0' & G1').
  assert (Hll : (Qfloor p <= Qfloor p')%Z) by now apply Qfloor_resp_le.
  set (lo := Qfloor p) in *. set (lo' := Qfloor p') in *.
  assert (Hnth : forall i j : Z, (0 <= i <= j)%Z -> (j <= n - 1)%Z ->
                   nth (Z.to_nat i) s 0 <= nth (Z.to_nat j) s 0).
  { intros i j Hij Hj. apply nth_sorted; [exact Hs|]. unfold n in Hj. lia. }
  pose proof (Hnth lo (Z.min (lo + 1) (n - 1)) ltac:(lia) ltac:(lia)) as Hab.
  pose proof (Hnth lo' (Z.min (lo' + 1) (n - 1)) ltac:(lia) ltac:(lia)) as Hab'.
  destruct (Z.eq_dec lo lo') as [E|E].
  - rewrite <- E in *.
    set (a := nth (Z.to_nat lo) s 0) in *.
    set (b := nth (Z.to_nat (Z.min (lo + 1) (n - 1))) s 0) in *.
    nra.
  - pose proof (Hnth (Z.min (lo + 1) (n - 1)) lo' ltac:(lia) ltac:(lia)) as Hba.
    set (a := nth (Z.to_nat lo) s 0) in *.
    set (b := nth (Z.to_nat (Z.min (lo + 1) (n - 1))) s 0) in *.
    set (a' := nth (Z.to_nat lo') s 0) in *.
    set (b' := nth (Z.to_nat (Z.min (lo' + 1) (n - 1))) s 0) in *.
    destruct (interpolation_between a b (p - inject_Z lo)) as [_ U]; try lra.
    destruct (interpolation_between a' b' (p' - inject_Z lo')) as [L _]; try lra.
Qed.

Lemma quantile_proper (x : list Q) (q q' : Q) :
  q == q' -> quantile x q == quantile x q'.
Proof.
  intros Hq. unfold quantile.
  set (s := sort_values Qle_bool x). set (n := Z.of_nat (length s)).
  assert (E : Qfloor (inject_Z (n - 1) * q) = Qfloor (inject_Z (n - 1) * q')).
  { apply Qfloor_comp. now rewrite Hq. }
  rewrite E, Hq. reflexivity.
Qed.

Lemma quantile_0_is_least (x : list Q) (v : Q) :
  In v x -> quantile x 0 <= v.
Proof.
  intros Hv. unfold quantile.
  pose proof (sorted_column x) as Hs.
  apply (sort_values_In Qle_bool) in Hv.
  set (s := sort_values Qle_bool x) in *.
  set (n := Z.of_nat (length s)).
  assert (E : Qfloor (inject_Z (n - 1) * 0) = 0%Z).
  { transitivity (Qfloor 0); [apply Qfloor_comp; ring | reflexivity]. }
  rewrite E. simpl Z.to_nat.
  destruct (In_nth s v 0 Hv) as (i & Hi & <-).
  pose proof (nth_sorted s Hs 0 i ltac:(lia)) as H.
  set (a := nth 0 s 0) in *.
  match goal with
  | |- a + (?b - a) * ?g <= _ => assert (a + (b - a) * g == a) by (simpl; ring)
  end.
  lra.
Qed.

Lemma quantile_1_is_greatest (x : list Q) (v : Q) :
  In v x -> v <= quantile x 1.
Proof.
  intros Hv. unfold quantile.
  pose proof (sorted_column x) as Hs.
  apply (sort_values_In Qle_bool) in Hv.
  set (s := sort_values Qle_bool x) in *.
  set (n := Z.of_nat (length s)).
  assert (Hn : (1 <= n)%Z) by (unfold n; destruct s; [now elim Hv | simpl; lia]).
  assert (E : Qfloor (inject_Z (n - 1) * 1) = (n - 1)%Z).
  { transitivity (Qfloor (inject_Z (n - 1))); [apply Qfloor_comp; ring | apply Qfloor_Z]. }
  rewrite E. replace (Z.min (n - 1 + 1) (n - 1)) with (n - 1)%Z by lia.
  destruct (In_nth s v 0 Hv) as (i & Hi & <-).
  pose proof (nth_sorted s Hs i (Z.to_nat (n - 1)) ltac:(unfold n; lia)) as H.
  set (a := nth (Z.to_nat (n - 1)) s 0) in *.
  match goal with
  | |- _ <= a + (a - a) * ?g => assert (a + (a - a) * g == a) by ring
  end.
  lra.
Qed.

(** ** The three binnings *)

Lemma fold_left_Qmin_le (t : list Q) (a : Q) :
  fold_left Qmin t a <= a /\ forall y, In y t -> fold_left Qmin t a <= y.
Proof.
  revert a; induction t as [|x t IH]; intros a; simpl.
  - split; [apply Qle_refl | tauto].
  - destruct (IH (Qmin a x)) as [H1 H2].
    pose proof (Q.le_min_l a x). pose proof (Q.le_min_r a x).
    split; [lra|]. intros y [<-|Hy]; [lra | now apply H2].
Qed.

Lemma fold_left_Qmax_ge (t : list Q) (a : Q) :
  a <= fold_left Qmax t a /\ forall y, In y t -> y <= fold_left Qmax t a.
Proof.
  revert a; induction t as [|x t IH]; intros a; simpl.
  - split; [apply Qle_refl | tauto].
  - destruct (IH (Qmax a x)) as [H1 H2].
    pose proof (Q.le_max_l a x). pose proof (Q.le_max_r a x).
    split; [lra|]. intros y [<-|Hy]; [lra | now apply H2].
Qed.

Lemma Series_min_le (x : list Q) (v : Q) : In v x -> Series_min x <= v.
Proof.
  destruct x as [|a t]; [intros []|]. simpl.
  destruct (fold_left_Qmin_le t a) as [H1 H2].
  intros [<-|Hv]; auto.
Qed.

Lemma Series_max_ge (x : list Q) (v : Q) : In v x -> v <= Series_max x.
Proof.
  destruct x as [|a t]; [intros []|]. simpl.
  destruct (fold_left_Qmax_ge t a) as [H1 H2].
  intros [<-|Hv]; auto.
Qed.

Lemma Qle_bool_proper_r (x q q' : Q) : q == q' -> Qle_bool x q = Qle_bool x q'.
Proof.
  intros E. destruct (Qle_bool x q') eqn:H.
  - apply Qle_bool_iff in H. apply Qle_bool_iff. lra.
  - apply Qle_bool_false in H. apply Qle_bool_false. lra.
Qed.

Lemma bucket_proper (q1 q2 q3 q1' q2' q3' : Q) (l1 l2 l3 l4 : Z) (x : Q) :
  q1 == q1' -> q2 == q2' -> q3 == q3' ->
  bucket q1 q2 q3 l1 l2 l3 l4 x = bucket q1' q2' q3' l1 l2 l3 l4 x.
Proof.
  intros E1 E2 E3. unfold bucket.
  now rewrite (Qle_bool_proper_r x q1 q1' E1), (Qle_bool_proper_r x q2 q2' E2),
              (Qle_bool_proper_r x q3 q3' E3).
Qed.

Lemma bucket_cases (q1 q2 q3 : Q) (l1 l2 l3 l4 : Z) (x : Q) :
  let s := bucket q1 q2 q3 l1 l2 l3 l4 x in
  s = l1 \/ s = l2 \/ s = l3 \/ s = l4.
Proof.
  unfold bucket.
  destruct (Qle_bool x q1), (Qle_bool x q2), (Qle_bool x q3); tauto.
Qed.

Lemma labels_in_buckets (col : list Q) (e0 e1 e2 e3 e4 : Q) (l1 l2 l3 l4 : Z) :
  strictly_increasing [e0; e1; e2; e3; e4] ->
  (forall v, In v col -> e0 <= v /\ v <= e4) ->
  map (fun v => take_label [l1; l2; l3; l4] (bin_id [e0; e1; e2; e3; e4] true v)) col
  = map (fun v => Some (bucket e1 e2 e3 l1 l2 l3 l4 v)) col.
Proof.
  intros Hs Hb. apply strictly_increasing_5 in Hs.
  apply map_ext_in. intros v Hv. destruct (Hb v Hv).
  apply bin_label_bucket; tauto.
Qed.

Lemma linspace01_4 : linspace01 4 = [0 # 4; 1 # 4; 2 # 4; 3 # 4; 4 # 4].
Proof. reflexivity. Qed.

Lemma recency_edges_sorted (rfm : list CustomerMetrics) :
  rfm <> [] -> StronglySorted Qle (recency_edges rfm).
Proof.
  intros Hne. unfold recency_edges. rewrite linspace01_4. simpl map.
  assert (Hcol : recency_col rfm <> [])
    by (destruct rfm; [congruence | discriminate]).
  apply Sorted_StronglySorted; [exact Qle_trans|].
  assert (M : forall q q', 0 <= q -> q <= q' -> q' <= 1 ->
                quantile (recency_col rfm) q <= quantile (recency_col rfm) q')
    by (intros; now apply quantile_monotone).
  repeat first [apply Sorted_cons | apply Sorted_nil | apply HdRel_cons | apply HdRel_nil];
    apply M; unfold Qle; simpl; lia.
Qed.

(** When [qcut] returns on Recency, its five cut points are strictly
    increasing and each customer has the score of its bucket. *)
Lemma R_Score_cut_Ok (rfm : list CustomerMetrics) (scores : list (option Z)) :
  R_Score_cut rfm = Ok scores ->
  strictly_increasing (recency_edges rfm)
  /\ scores = map (fun c => Some (spec_R_Score rfm c)) rfm.
Proof.
  unfold R_Score_cut, qcut. intros H.
  destruct rfm as [|c0 rest] eqn:Hrfm; [discriminate H|].
  rewrite <- Hrfm in *.
  assert (Hne : rfm <> []) by (rewrite Hrfm; discriminate).
  assert (H' : bins_to_cuts (recency_col rfm) (recency_edges rfm) [4; 3; 2; 1]%Z true
               = Ok scores).
  { rewrite Hrfm in *. exact H. }
  clear H. pose proof (recency_edges_sorted rfm Hne) as Hsorted.
  unfold recency_edges in *. rewrite linspace01_4 in *. simpl map in *.
  apply bins_to_cuts_5 in H'; [|reflexivity]. destruct H' as [Hd ->].
  pose proof (sorted_distinct_strict _ Hsorted Hd) as Hstrict.
  split; [exact Hstrict|].
  rewrite labels_in_buckets; [|exact Hstrict|].
  - unfold recency_col at 4. rewrite map_map. apply map_ext. intros c.
    unfold spec_R_Score. f_equal.
    apply bucket_proper; apply quantile_proper; reflexivity.
  - intros v Hv. split.
    + rewrite (quantile_proper _ (0 # 4) 0) by reflexivity.
      now apply quantile_0_is_least.
    + rewrite (quantile_proper _ (4 # 4) 1) by reflexivity.
      now apply quantile_1_is_greatest.
Qed.

Lemma R_Score_cut_returns (rfm : list CustomerMetrics) :
  rfm <> [] -> strictly_increasing (recency_edges rfm) -> returns (R_Score_cut rfm).
Proof.
  intros Hne Hs. unfold R_Score_cut, qcut, returns.
  destruct (recency_col rfm) as [|v col] eqn:Hcol.
  - destruct rfm; [congruence | discriminate Hcol].
  - rewrite <- Hcol. unfold recency_edges in Hs.
    rewrite linspace01_4 in *. simpl map in *.
    eexists. apply bins_to_cuts_strict; [reflexivity | exact Hs].
Qed.

(** When [cut] returns on Monetary, the edges are strictly increasing
    and each customer has the score of its bucket. *)
Lemma M_Score_cut_Ok (rfm : list CustomerMetrics) (scores : list (option Z)) :
  M_Score_cut rfm = Ok scores ->
  strictly_increasing (monetary_bins rfm)
  /\ scores = map (fun c => Some (spec_M_Score rfm c)) rfm.
Proof.
  unfold M_Score_cut, cut. intros H.
  destruct (is_monotonic_increasing (monetary_bins rfm)) eqn:Hm; [|discriminate H].
  cbn [negb] in H. apply is_monotonic_increasing_sorted in Hm.
  unfold monetary_bins in *.
  apply bins_to_cuts_5 in H; [|reflexivity]. destruct H as [Hd ->].
  pose proof (sorted_distinct_strict _ Hm Hd) as Hstrict.
  split; [exact Hstrict|].
  rewrite labels_in_buckets; [|exact Hstrict|].
  - exact (map_map Monetary _ rfm).
  - intros v Hv. pose proof (Series_min_le _ v Hv). pose proof (Series_max_ge _ v Hv).
    split; lra.
Qed.

(** The same for Frequency, with the fixed inner edges 1, 2, 3. *)
Lemma F_Score_cut_Ok (rfm : list CustomerMetrics) (scores : list (option Z)) :
  F_Score_cut rfm = Ok scores ->
  strictly_increasing (freq_bins rfm)
  /\ scores = map (fun c => Some (bucket 1 2 3 1 2 3 4 (inject_Z (Frequency c)))) rfm.
Proof.
  unfold F_Score_cut, cut. intros H.
  destruct (is_monotonic_increasing (freq_bins rfm)) eqn:Hm; [|discriminate H].
  cbn [negb] in H. apply is_monotonic_increasing_sorted in Hm.
  unfold freq_bins in *.
  apply bins_to_cuts_5 in H; [|reflexivity]. destruct H as [Hd ->].
  pose proof (sorted_distinct_strict _ Hm Hd) as Hstrict.
  split; [exact Hstrict|].
  rewrite labels_in_buckets; [|exact Hstrict|].
  - exact (map_map (fun c => inject_Z (Frequency c)) _ rfm).
  - intros v Hv. pose proof (Series_min_le _ v Hv). pose proof (Series_max_ge _ v Hv).
    split; lra.
Qed.

Lemma bucket_valid (q1 q2 q3 : Q) (l1 l2 l3 l4 : Z) (x : Q) :
  Scores.valid_score l1 -> Scores.valid_score l2 ->
  Scores.valid_score l3 -> Scores.valid_score l4 ->
  Scores.valid_score (bucket q1 q2 q3 l1 l2 l3 l4 x).
Proof.
  intros. destruct (bucket_cases q1 q2 q3 l1 l2 l3 l4 x) as [E|[E|[E|E]]];
    cbv zeta in E; now rewrite E.
Qed.

(** C3 as stated fails.  Customers with the same Recency share a bucket:
    of eight customers, four get score 4 and none gets score 3, so the
    buckets do not have equal populations. *)
Lemma C3_buckets_of_unequal_population :
  R_Score_cut tied_customers
  = Ok [Some 4; Some 4; Some 4; Some 4; Some 2; Some 2; Some 1; Some 1]%Z
  /\ bucket_sizes [Some 4; Some 4; Some 4; Some 4; Some 2; Some 2; Some 1; Some 1]%Z
     = [4; 0; 2; 2]%nat
  /\ ~ equal_population [4; 0; 2; 2]%nat.
Proof.
  split; [vm_compute; reflexivity|]. split; [reflexivity|].
  intros H. specialize (H 4%nat 0%nat). simpl in H.
  assert (4 <= 0 + 1)%nat by (apply H; tauto). lia.
Qed.

(** With a single customer, or with one Recency shared by all, the cut
    points coincide and [qcut] raises. *)
Lemma degenerate_recency_is_refused :
  R_Score_cut [mkMetrics 12346 7 1 10] = Raise (ValueError "Bin edges must be unique")
  /\ R_Score_cut [mkMetrics 12346 7 1 10; mkMetrics 12347 7 4 20; mkMetrics 12348 7 2 30]
     = Raise (ValueError "Bin edges must be unique").
Proof. split; vm_compute; reflexivity. Qed.

(** C3, amended.  On a non-empty population whose five Recency cut
    points (minimum, the three quartiles, maximum) are strictly
    increasing, the binning returns and gives every customer a score:
    4 up to the first quartile, 3 up to the median, 2 up to the third
    quartile, 1 above it. *)
Theorem C3_R_Score_follows_the_quartile_cut_points (rfm : list CustomerMetrics) :
  rfm <> [] ->
  strictly_increasing (recency_edges rfm) ->
  R_Score_cut rfm = Ok (map (fun c => Some (spec_R_Score rfm c)) rfm)
  /\ Forall (fun c => Scores.valid_score (spec_R_Score rfm c)) rfm.
Proof.
  intros Hne Hs. split.
  - destruct (R_Score_cut_returns rfm Hne Hs) as [scores H].
    rewrite H. f_equal. now apply R_Score_cut_Ok.
  - apply Forall_forall. intros c _.
    apply bucket_valid; unfold Scores.valid_score; lia.
Qed.

Lemma C3_witness :
  R_Score_cut tied_customers
  = Ok (map (fun c => Some (spec_R_Score tied_customers c)) tied_customers)
  /\ Forall (fun c => Scores.valid_score (spec_R_Score tied_customers c)) tied_customers.
Proof.
  apply (C3_R_Score_follows_the_quartile_cut_points tied_customers).
  - discriminate.
  - apply strictly_increasing_5. vm_compute. repeat split; reflexivity.
Defined.

(** C5.  The binning of Monetary misses the claim where quartiles
    coincide.  Eight raw rows give five customers of whom three spent
    10, one 20 and one 30.  The percentiles of the claim are 10, 10, 10,
    20, 30 and its buckets give the customers the scores 1, 1, 1, 3, 4.
    The script computes the edges 9, 10, 10, 20, 30; [cut] refuses the
    repeated edge after R_Score and F_Score have been assigned, and the
    run ends with no M_Score for anybody. *)
Theorem C5_monetary_binning_refuses_equal_spenders :
  rfm (df_clean raw_equal_spenders) = equal_spenders
  /\ map Qred (spec_monetary_percentiles equal_spenders) = [10; 10; 10; 20; 30]
  /\ map (spec_M_Score equal_spenders) equal_spenders = [1; 1; 1; 3; 4]%Z
  /\ map Qred (monetary_bins equal_spenders) = [9; 10; 10; 20; 30]
  /\ R_Score_cut equal_spenders = Ok [Some 4; Some 4; Some 3; Some 2; Some 1]%Z
  /\ F_Score_cut equal_spenders = Ok [Some 1; Some 1; Some 1; Some 1; Some 4]%Z
  /\ M_Score_cut equal_spenders = Raise (ValueError "Bin edges must be unique")
  /\ assign_scores equal_spenders = Raise (ValueError "Bin edges must be unique")
  /\ run raw_equal_spenders = Raise (ValueError "Bin edges must be unique").
Proof. repeat split; vm_compute; reflexivity. Qed.

(** ** Frequency *)

Lemma Qle_bool_inject_Z (a b : Z) : Qle_bool (inject_Z a) (inject_Z b) = (a <=? b)%Z.
Proof. unfold Qle_bool; simpl. now rewrite !Z.mul_1_r. Qed.

(** Where the Frequency binning returns, the scores are the ones of the
    fixed boundaries. *)
Lemma F_Score_fixed_boundaries (rfm : list CustomerMetrics) (scores : list (option Z)) :
  (forall c, In c rfm -> (1 <= Frequency c)%Z) ->
  F_Score_cut rfm = Ok scores ->
  scores = map (fun c => Some (spec_F_Score c)) rfm.
Proof.
  intros Hpos H. apply F_Score_cut_Ok in H. destruct H as [_ ->].
  apply map_ext_in. intros c Hc. specialize (Hpos c Hc). f_equal.
  unfold bucket, spec_F_Score.
  change 1 with (inject_Z 1). change 2 with (inject_Z 2). change 3 with (inject_Z 3).
  rewrite !Qle_bool_inject_Z.
  destruct (Z.leb_spec (Frequency c) 1), (Z.leb_spec (Frequency c) 2),
           (Z.leb_spec (Frequency c) 3),
           (Z.eqb_spec (Frequency c) 1), (Z.eqb_spec (Frequency c) 2),
           (Z.eqb_spec (Frequency c) 3); try reflexivity; lia.
Qed.

(** The Frequency binning returns exactly when the least Frequency is
    below 2 and the greatest above 3. *)
Lemma F_Score_cut_returns_iff (rfm : list CustomerMetrics) :
  returns (F_Score_cut rfm) <->
  Series_min (frequency_col rfm) < 2 /\ 3 < Series_max (frequency_col rfm).
Proof.
  split.
  - intros [scores H]. apply F_Score_cut_Ok in H. destruct H as [H _].
    unfold freq_bins in H. apply strictly_increasing_5 in H. split; lra.
  - intros [Hmin Hmax].
    assert (Hs : strictly_increasing (freq_bins rfm)).
    { unfold freq_bins. apply strictly_increasing_5. repeat split; lra. }
    unfold F_Score_cut, cut, returns.
    destruct (strictly_increasing_monotonic _ Hs) as [-> _]. cbn [negb].
    unfold freq_bins in *.
    eexists. apply bins_to_cuts_strict; [reflexivity | exact Hs].
Qed.

(** Every customer of the aggregated table has at least one invoice. *)
Lemma frequency_at_least_one (df : list Row) (c : CustomerMetrics) :
  In c (rfm df) -> (1 <= Frequency c)%Z.
Proof.
  intros Hc. apply rfm_In in Hc. destruct Hc as (s & _ & Hk & ->).
  apply group_keys_In in Hk. destruct Hk as (r & Hr & Hkey).
  cbn [Frequency agg]. unfold nunique.
  assert (Hin : In (Invoice r) (unique String.eqb (map Invoice (group df (Customer c))))).
  { apply (unique_In String.eqb String.eqb_eq), in_map, group_In. auto. }
  destruct (unique String.eqb (map Invoice (group df (Customer c))));
    [now elim Hin | simpl length; lia].
Qed.

(** C4 at a population it fails on: two customers who both bought at
    least twice.  Recency is binned, then the Frequency edges
    [1, 1, 2, 3, 5] are refused and the step ends without any score. *)
Theorem C4_frequency_binning_refuses_repeat_buyers :
  R_Score_cut repeat_buyers = Ok [Some 4; Some 1]%Z
  /\ map Qred (freq_bins repeat_buyers) = [1; 1; 2; 3; 5]
  /\ F_Score_cut repeat_buyers = Raise (ValueError "Bin edges must be unique")
  /\ assign_scores repeat_buyers = Raise (ValueError "Bin edges must be unique")
  /\ map spec_F_Score repeat_buyers = [2; 4]%Z.
Proof. repeat split; vm_compute; reflexivity. Qed.

(** The same defect from the other side: in [raw_sample] both customers
    bought once, the edges are [0, 1, 2, 3, 1] and the run ends in the
    binning of Frequency. *)
Lemma single_purchases_are_refused :
  map Frequency (rfm (df_clean raw_sample)) = [1; 1]%Z
  /\ map Qred (freq_bins (rfm (df_clean raw_sample))) = [0; 1; 2; 3; 1]
  /\ run raw_sample = Raise (ValueError "bins must increase monotonically.").
Proof. repeat split; vm_compute; reflexivity. Qed.

(** C10.  When the least Frequency of a non-empty population is 2 or
    more, the first Frequency edge is not below the second one, the
    binning of Frequency raises, and the scoring step ends with an
    exception instead of scores. *)
Theorem C10_frequency_binning_raises_from_min_2 (rfm : list CustomerMetrics) :
  rfm <> [] ->
  2 <= Series_min (frequency_col rfm) ->
  ~ strictly_increasing (freq_bins rfm)
  /\ raises (F_Score_cut rfm)
  /\ raises (assign_scores rfm).
Proof.
  intros _ Hmin.
  assert (Hns : ~ strictly_increasing (freq_bins rfm)).
  { unfold freq_bins. rewrite strictly_increasing_5. lra. }
  assert (HF : raises (F_Score_cut rfm)).
  { destruct (F_Score_cut rfm) as [scores|e] eqn:E.
    - apply F_Score_cut_Ok in E. tauto.
    - now exists e. }
  split; [exact Hns|]. split; [exact HF|].
  destruct HF as [e HF]. unfold assign_scores.
  destruct (R_Score_cut rfm) as [R|e']; simpl.
  - rewrite HF. simpl. now exists e.
  - now exists e'.
Qed.

Lemma C10_witness :
  ~ strictly_increasing (freq_bins repeat_buyers)
  /\ raises (F_Score_cut repeat_buyers)
  /\ raises (assign_scores repeat_buyers).
Proof.
  apply (C10_frequency_binning_raises_from_min_2 repeat_buyers).
  - discriminate.
  - vm_compute. intros H. discriminate H.
Defined.

(** ** Missing scores *)

Section Columns.
Context {A : Type}.
Variable f g h : A -> Z.

Lemma no_null_scores (l : list A) :
  existsb isnull (map (fun c => Some (f c)) l) = false.
Proof. induction l; simpl; auto. Qed.

Lemma astype_int_scores (l : list A) :
  astype_int (map (fun c => Some (f c)) l) = Ok (map f l).
Proof. induction l as [|a t IH]; simpl; [reflexivity | now rewrite IH]. Qed.
End Columns.

Lemma fill_missing_nothing_missing (categories : list Z) (col : list (option Z)) :
  existsb isnull col = false -> fill_missing categories col = Ok col.
Proof. intros H. unfold fill_missing. now rewrite H. Qed.

Lemma scored_rows_map (f g h : CustomerMetrics -> Z) (rfm : list CustomerMetrics) :
  scored_rows rfm (map f rfm) (map g rfm) (map h rfm)
  = map (fun c => {| Metrics := c; R_Score := f c; F_Score := g c; M_Score := h c;
                     RFM_Segment := (str (f c) ++ str (g c) ++ str (h c))%string |}) rfm.
Proof. induction rfm as [|c t IH]; simpl; [reflexivity | now rewrite IH]. Qed.




(** ** A whole run *)

(** Two customers, from the raw rows to the segments. *)
Lemma run_raw_regular :
  rfm (df_clean raw_regular)
  = [ mkMetrics 13078 1 4 (12995000000 # 100000000);
      mkMetrics 13085 374 1 (1644000 # 10000) ]
  /\ (exists classified,
        run raw_regular = Ok classified
        /\ map summary classified
           = [ (13078, "441", "Loyal Customers"); (13085, "114", "Lost Customers") ]%string%Z).
Proof.
  split; [vm_compute; reflexivity|].
  eexists. split; vm_compute; reflexivity.
Qed.

(** * Further properties of the pipeline *)

(** ** When the binnings return *)

Lemma assign_scores_Ok (rfm : list CustomerMetrics) (scored : list ScoredCustomer) :
  assign_scores rfm = Ok scored ->
  rfm <> []
  /\ strictly_increasing (recency_edges rfm)
  /\ strictly_increasing (freq_bins rfm)
  /\ strictly_increasing (monetary_bins rfm)
  /\ scored = map (score_row rfm) rfm.
Proof.
  unfold assign_scores. intros H.
  destruct (R_Score_cut rfm) as [R|e] eqn:HR; [|discriminate H].
  destruct (F_Score_cut rfm) as [F|e] eqn:HF; [|discriminate H].
  destruct (M_Score_cut rfm) as [M|e] eqn:HM; [|discriminate H].
  cbn [bind] in H.
  assert (Hne : rfm <> []) by (intros ->; discriminate HR).
  destruct (R_Score_cut_Ok rfm R HR) as [SR ER].
  destruct (F_Score_cut_Ok rfm F HF) as [SF EF].
  destruct (M_Score_cut_Ok rfm M HM) as [SM EM].
  subst R F M.
  rewrite !fill_missing_nothing_missing in H by apply no_null_scores.
  cbn [bind] in H. rewrite !astype_int_scores in H. cbn [bind] in H.
  rewrite scored_rows_map in H. injection H as <-.
  repeat split; auto.
Qed.

(** X1.  When the binnings return.  The binning of Recency returns
    exactly on the non-empty tables whose five cut points are strictly
    increasing, the binning of Frequency exactly on the tables whose
    least Frequency is below 2 and whose greatest is above 3.  The
    scoring step returns only if its three binnings return, and raises
    as soon as one of them raises. *)
Theorem X1_binnings_return_exactly_when_edges_increase (rfm : list CustomerMetrics) :
  (returns (R_Score_cut rfm) <->
   rfm <> [] /\ strictly_increasing (recency_edges rfm))
  /\ (returns (F_Score_cut rfm) <->
      Series_min (frequency_col rfm) < 2 /\ 3 < Series_max (frequency_col rfm))
  /\ (returns (assign_scores rfm) ->
      returns (R_Score_cut rfm) /\ returns (F_Score_cut rfm)
      /\ returns (M_Score_cut rfm))
  /\ (raises (R_Score_cut rfm) \/ raises (F_Score_cut rfm)
      \/ raises (M_Score_cut rfm) ->
      raises (assign_scores rfm)).
Proof.
  split; [|split; [|split]].
  - split.
    + intros [scores H]. split; [intros ->; discriminate H|].
      now apply R_Score_cut_Ok in H.
    + intros [Hne Hs]. now apply R_Score_cut_returns.
  - apply F_Score_cut_returns_iff.
  - intros [scored H]. unfold assign_scores in H.
    destruct (R_Score_cut rfm) as [R|e]; [|discriminate H].
    destruct (F_Score_cut rfm) as [F|e]; [|discriminate H].
    destruct (M_Score_cut rfm) as [M|e]; [|discriminate H].
    repeat split; eexists; reflexivity.
  - unfold assign_scores, raises.
    destruct (R_Score_cut rfm) as [R|eR]; [|intros _; eexists; reflexivity].
    destruct (F_Score_cut rfm) as [F|eF]; [|intros _; eexists; reflexivity].
    destruct (M_Score_cut rfm) as [M|eM]; [|intros _; eexists; reflexivity].
    intros [[e H]|[[e H]|[e H]]]; discriminate H.
Qed.

Lemma X1_witness :
  returns (R_Score_cut two_customers)
  /\ returns (F_Score_cut two_customers)
  /\ raises (assign_scores repeat_buyers).
Proof.
  split; [|split].
  - apply (proj2 (proj1 (X1_binnings_return_exactly_when_edges_increase two_customers))).
    split; [discriminate|].
    apply strictly_increasing_5; vm_compute; repeat split; reflexivity.
  - apply (proj2 (proj1 (proj2
             (X1_binnings_return_exactly_when_edges_increase two_customers)))).
    split; vm_compute; reflexivity.
  - apply (proj2 (proj2 (proj2
             (X1_binnings_return_exactly_when_edges_increase repeat_buyers)))).
    right; left. eexists. vm_compute. reflexivity.
Defined.

(** ** Extremes of a column *)

Lemma Qmin_cases (a b : Q) : Qmin a b = a \/ Qmin a b = b.
Proof. unfold Qmin, GenericMinMax.gmin. destruct (a ?= b); auto. Qed.

Lemma Qmax_cases (a b : Q) : Qmax a b = a \/ Qmax a b = b.
Proof. unfold Qmax, GenericMinMax.gmax. destruct (a ?= b); auto. Qed.

Lemma Series_min_In (x : list Q) : x <> [] -> In (Series_min x) x.
Proof.
  destruct x as [|a t]; [congruence|]. intros _. simpl.
  revert a. induction t as [|b t IH]; intros a; simpl; [now left|].
  destruct (IH (Qmin a b)) as [H|H]; [|tauto].
  rewrite <- H. destruct (Qmin_cases a b) as [-> | ->]; tauto.
Qed.

Lemma Series_max_In (x : list Q) : x <> [] -> In (Series_max x) x.
Proof.
  destruct x as [|a t]; [congruence|]. intros _. simpl.
  revert a. induction t as [|b t IH]; intros a; simpl; [now left|].
  destruct (IH (Qmax a b)) as [H|H]; [|tauto].
  rewrite <- H. destruct (Qmax_cases a b) as [-> | ->]; tauto.
Qed.

Lemma quantile_0_attained (x : list Q) :
  x <> [] -> exists v, In v x /\ quantile x 0 == v.
Proof.
  intros Hx.
  pose proof (sort_values_length Qle_bool x) as Hlen.
  exists (nth 0 (sort_values Qle_bool x) 0). split.
  - apply (sort_values_In Qle_bool), nth_In. rewrite Hlen.
    destruct x; [congruence | simpl; lia].
  - unfold quantile.
    set (s := sort_values Qle_bool x) in *. set (n := Z.of_nat (length s)).
    assert (E : Qfloor (inject_Z (n - 1) * 0) = 0%Z).
    { transitivity (Qfloor 0); [apply Qfloor_comp; ring | reflexivity]. }
    rewrite E. simpl Z.to_nat. simpl inject_Z. ring.
Qed.

Lemma quantile_1_attained (x : list Q) :
  x <> [] -> exists v, In v x /\ quantile x 1 == v.
Proof.
  intros Hx.
  pose proof (sort_values_length Qle_bool x) as Hlen.
  exists (nth (length x - 1) (sort_values Qle_bool x) 0). split.
  - apply (sort_values_In Qle_bool), nth_In. rewrite Hlen.
    destruct x; [congruence | simpl; lia].
  - unfold quantile.
    set (s := sort_values Qle_bool x) in *. set (n := Z.of_nat (length s)).
    assert (Hn : (1 <= n)%Z).
    { unfold n. rewrite Hlen. destruct x; [congruence | simpl length; lia]. }
    assert (E : Qfloor (inject_Z (n - 1) * 1) = (n - 1)%Z).
    { transitivity (Qfloor (inject_Z (n - 1))); [apply Qfloor_comp; ring | apply Qfloor_Z]. }
    rewrite E. replace (Z.min (n - 1 + 1) (n - 1)) with (n - 1)%Z by lia.
    replace (Z.to_nat (n - 1)) with (length x - 1)%nat by (unfold n; lia).
    ring.
Qed.

(** On a column that holds one value only, every quantile between the
    0th and the 100th is that value. *)
Lemma quantile_constant (x : list Q) (a q : Q) :
  x <> [] -> (forall v, In v x -> v == a) -> 0 <= q -> q <= 1 ->
  quantile x q == a.
Proof.
  intros Hx Hall H0 H1.
  destruct (quantile_0_attained x Hx) as (v0 & Hv0 & E0).
  destruct (quantile_1_attained x Hx) as (v1 & Hv1 & E1).
  pose proof (Hall v0 Hv0). pose proof (Hall v1 Hv1).
  pose proof (quantile_monotone x 0 q Hx ltac:(lra) H0 H1).
  pose proof (quantile_monotone x q 1 Hx H0 H1 ltac:(lra)).
  lra.
Qed.

Lemma quarter_bounds :
  0 <= 0 # 4 /\ 0 # 4 <= 1 # 4 /\ 1 # 4 <= 1 # 2 /\ 1 # 2 <= 3 # 4 /\ 3 # 4 <= 1
  /\ 0 # 4 == 0 /\ 2 # 4 == 1 # 2 /\ 4 # 4 == 1.
Proof. repeat split; unfold Qle, Qeq; simpl; lia. Qed.

Lemma recency_edges_5 (rfm : list CustomerMetrics) :
  recency_edges rfm
  = [ quantile (recency_col rfm) (0 # 4); quantile (recency_col rfm) (1 # 4);
      quantile (recency_col rfm) (2 # 4); quantile (recency_col rfm) (3 # 4);
      quantile (recency_col rfm) (4 # 4) ].
Proof. unfold recency_edges. now rewrite linspace01_4. Qed.

Lemma column_nonempty {A : Type} (f : A -> Q) (l : list A) : l <> [] -> map f l <> [].
Proof. destruct l; [congruence | discriminate]. Qed.

(** X2.  When one of the three metrics has the same value for every
    customer of the table (in particular when the table has a single
    customer, or none), the scoring step raises: two bin edges coincide. *)
Theorem X2_constant_metric_is_refused (rfm : list CustomerMetrics) :
  (exists r, forall c, In c rfm -> Recency c = r)
  \/ (exists f, forall c, In c rfm -> Frequency c = f)
  \/ (exists m, forall c, In c rfm -> Monetary c == m) ->
  raises (assign_scores rfm).
Proof.
  intros Hconst.
  destruct (assign_scores rfm) as [scored|e] eqn:H; [|now exists e].
  exfalso. apply assign_scores_Ok in H.
  destruct H as (Hne & SR & SF & SM & _).
  destruct quarter_bounds as (B0 & B1 & B2 & B3 & B4 & E0 & E2 & E4).
  destruct Hconst as [[r Hr]|[[f Hf]|[m Hm]]].
  - rewrite recency_edges_5 in SR. apply strictly_increasing_5 in SR.
    assert (Hall : forall v, In v (recency_col rfm) -> v == inject_Z r).
    { intros v Hv. apply in_map_iff in Hv. destruct Hv as (c & <- & Hc).
      now rewrite (Hr c Hc). }
    assert (Hcol : recency_col rfm <> []) by now apply column_nonempty.
    pose proof (quantile_constant _ _ (0 # 4) Hcol Hall ltac:(lra) ltac:(lra)).
    pose proof (quantile_constant _ _ (1 # 4) Hcol Hall ltac:(lra) ltac:(lra)).
    lra.
  - unfold freq_bins in SF. apply strictly_increasing_5 in SF.
    assert (Hcol : frequency_col rfm <> []) by now apply column_nonempty.
    pose proof (Series_min_In _ Hcol) as Hmin.
    pose proof (Series_max_In _ Hcol) as Hmax.
    apply in_map_iff in Hmin, Hmax.
    destruct Hmin as (c0 & E0' & Hc0). destruct Hmax as (c1 & E1' & Hc1).
    rewrite <- E0', <- E1', (Hf c0 Hc0), (Hf c1 Hc1) in SF. lra.
  - unfold monetary_bins in SM. apply strictly_increasing_5 in SM.
    assert (Hall : forall v, In v (monetary_col rfm) -> v == m).
    { intros v Hv. apply in_map_iff in Hv. destruct Hv as (c & <- & Hc). auto. }
    assert (Hcol : monetary_col rfm <> []) by now apply column_nonempty.
    pose proof (quantile_constant _ _ (1 # 4) Hcol Hall ltac:(lra) ltac:(lra)).
    pose proof (quantile_constant _ _ (1 # 2) Hcol Hall ltac:(lra) ltac:(lra)).
    lra.
Qed.

Lemma X2_witness : raises (assign_scores [mkMetrics 12346 7 1 10]).
Proof.
  apply (X2_constant_metric_is_refused [mkMetrics 12346 7 1 10]).
  left. exists 7%Z. intros c [<-|[]]. reflexivity.
Defined.

(** ** Order and range of the scores *)

Ltac bool_to_Q :=
  repeat match goal with
  | H : Qle_bool _ _ = true |- _ => apply Qle_bool_iff in H
  | H : Qle_bool _ _ = false |- _ => apply Qle_bool_false in H
  end.

Lemma bucket_increasing (q1 q2 q3 x y : Q) :
  q1 <= q2 -> q2 <= q3 -> x <= y ->
  (bucket q1 q2 q3 1 2 3 4 x <= bucket q1 q2 q3 1 2 3 4 y)%Z.
Proof.
  intros H12 H23 Hxy. unfold bucket.
  destruct (Qle_bool x q1) eqn:X1, (Qle_bool x q2) eqn:X2, (Qle_bool x q3) eqn:X3,
           (Qle_bool y q1) eqn:Y1, (Qle_bool y q2) eqn:Y2, (Qle_bool y q3) eqn:Y3;
    try lia; exfalso; bool_to_Q; lra.
Qed.

Lemma bucket_decreasing (q1 q2 q3 x y : Q) :
  q1 <= q2 -> q2 <= q3 -> x <= y ->
  (bucket q1 q2 q3 4 3 2 1 y <= bucket q1 q2 q3 4 3 2 1 x)%Z.
Proof.
  intros H12 H23 Hxy. unfold bucket.
  destruct (Qle_bool x q1) eqn:X1, (Qle_bool x q2) eqn:X2, (Qle_bool x q3) eqn:X3,
           (Qle_bool y q1) eqn:Y1, (Qle_bool y q2) eqn:Y2, (Qle_bool y q3) eqn:Y3;
    try lia; exfalso; bool_to_Q; lra.
Qed.

Lemma recency_quartiles_ordered (rfm : list CustomerMetrics) :
  strictly_increasing (recency_edges rfm) ->
  let x := recency_col rfm in
  quantile x 0 < quantile x (1 # 4) /\ quantile x (1 # 4) < quantile x (1 # 2)
  /\ quantile x (1 # 2) < quantile x (3 # 4) /\ quantile x (3 # 4) < quantile x 1.
Proof.
  intros SR x. rewrite recency_edges_5 in SR. apply strictly_increasing_5 in SR.
  fold x in SR.
  pose proof (quantile_proper x (0 # 4) 0 ltac:(reflexivity)).
  pose proof (quantile_proper x (2 # 4) (1 # 2) ltac:(reflexivity)).
  pose proof (quantile_proper x (4 # 4) 1 ltac:(reflexivity)).
  repeat split; lra.
Qed.

(** X3.  In the scored table the scores follow the metrics: a customer
    with a smaller or equal Recency has a greater or equal R_Score, and
    a customer with a smaller or equal Frequency (Monetary) has a
    smaller or equal F_Score (M_Score). *)
Theorem X3_scores_are_monotone (rfm : list CustomerMetrics) :
  returns (assign_scores rfm) ->
  exists scored,
    assign_scores rfm = Ok scored
    /\ forall s t, In s scored -> In t scored ->
         ((Recency (Metrics s) <= Recency (Metrics t))%Z -> (R_Score t <= R_Score s)%Z)
         /\ ((Frequency (Metrics s) <= Frequency (Metrics t))%Z -> (F_Score s <= F_Score t)%Z)
         /\ (Monetary (Metrics s) <= Monetary (Metrics t) -> (M_Score s <= M_Score t)%Z).
Proof.
  intros [scored H]. exists scored. split; [exact H|].
  apply assign_scores_Ok in H. destruct H as (Hne & SR & SF & SM & ->).
  intros s t Hs Ht. apply in_map_iff in Hs, Ht.
  destruct Hs as (a & <- & Ha). destruct Ht as (b & <- & Hb).
  cbn [score_row Metrics R_Score F_Score M_Score].
  apply recency_quartiles_ordered in SR. cbv zeta in SR.
  unfold monetary_bins in SM. apply strictly_increasing_5 in SM.
  repeat split.
  - intros Hle. unfold spec_R_Score.
    apply bucket_decreasing; try lra. now rewrite <- Zle_Qle.
  - intros Hle. apply bucket_increasing; try lra. now rewrite <- Zle_Qle.
  - intros Hle. unfold spec_M_Score. apply bucket_increasing; lra.
Qed.

Lemma X3_witness :
  exists scored,
    assign_scores two_customers = Ok scored
    /\ forall s t, In s scored -> In t scored ->
         ((Recency (Metrics s) <= Recency (Metrics t))%Z -> (R_Score t <= R_Score s)%Z)
         /\ ((Frequency (Metrics s) <= Frequency (Metrics t))%Z -> (F_Score s <= F_Score t)%Z)
         /\ (Monetary (Metrics s) <= Monetary (Metrics t) -> (M_Score s <= M_Score t)%Z).
Proof.
  apply (X3_scores_are_monotone two_customers).
  eexists. vm_compute. reflexivity.
Defined.

Lemma bucket_lowest (q1 q2 q3 : Q) (l1 l2 l3 l4 : Z) (x : Q) :
  x <= q1 -> bucket q1 q2 q3 l1 l2 l3 l4 x = l1.
Proof. intros H. unfold bucket. now decide_Q. Qed.

Lemma bucket_highest (q1 q2 q3 : Q) (l1 l2 l3 l4 : Z) (x : Q) :
  q1 < x -> q2 < x -> q3 < x -> bucket q1 q2 q3 l1 l2 l3 l4 x = l4.
Proof. intros H1 H2 H3. unfold bucket. now decide_Q. Qed.

(** X4.  Whenever the scoring step returns, both ends of the scale are
    in use for every metric: some customer has R_Score 4 and some has
    R_Score 1, and the same for F_Score and M_Score. *)
Theorem X4_extreme_scores_occur (rfm : list CustomerMetrics) :
  returns (assign_scores rfm) ->
  exists scored,
    assign_scores rfm = Ok scored
    /\ (exists s, In s scored /\ R_Score s = 4%Z)
    /\ (exists s, In s scored /\ R_Score s = 1%Z)
    /\ (exists s, In s scored /\ F_Score s = 1%Z)
    /\ (exists s, In s scored /\ F_Score s = 4%Z)
    /\ (exists s, In s scored /\ M_Score s = 1%Z)
    /\ (exists s, In s scored /\ M_Score s = 4%Z).
Proof.
  intros [scored H]. exists scored. split; [exact H|].
  apply assign_scores_Ok in H. destruct H as (Hne & SR & SF & SM & ->).
  destruct quarter_bounds as (B0 & B1 & B2 & B3 & B4 & _).
  assert (Pick : forall (P : ScoredCustomer -> Prop) c,
             In c rfm -> P (score_row rfm c) ->
             exists s, In s (map (score_row rfm) rfm) /\ P s).
  { intros P c Hc HP. exists (score_row rfm c). split; [now apply in_map | exact HP]. }
  apply recency_quartiles_ordered in SR. cbv zeta in SR.
  unfold freq_bins in SF. apply strictly_increasing_5 in SF.
  unfold monetary_bins in SM. apply strictly_increasing_5 in SM.
  assert (HR : recency_col rfm <> []) by now apply column_nonempty.
  assert (HF : frequency_col rfm <> []) by now apply column_nonempty.
  assert (HM : monetary_col rfm <> []) by now apply column_nonempty.
  repeat split.
  - destruct (quantile_0_attained _ HR) as (v & Hv & E).
    apply in_map_iff in Hv. destruct Hv as (c & <- & Hc).
    apply (Pick _ c Hc). cbn [score_row R_Score]. unfold spec_R_Score.
    apply bucket_lowest. lra.
  - destruct (quantile_1_attained _ HR) as (v & Hv & E).
    apply in_map_iff in Hv. destruct Hv as (c & <- & Hc).
    apply (Pick _ c Hc). cbn [score_row R_Score]. unfold spec_R_Score.
    apply bucket_highest; lra.
  - pose proof (Series_min_In _ HF) as Hv.
    apply in_map_iff in Hv. destruct Hv as (c & E & Hc). cbv beta in E.
    apply (Pick _ c Hc). cbn [score_row F_Score].
    apply bucket_lowest. rewrite <- E in SF.
    assert (Hlt : inject_Z (Frequency c) < 2) by lra.
    change 2 with (inject_Z 2) in Hlt. rewrite <- Zlt_Qlt in Hlt.
    change 1 with (inject_Z 1). rewrite <- Zle_Qle. lia.
  - pose proof (Series_max_In _ HF) as Hv.
    apply in_map_iff in Hv. destruct Hv as (c & E & Hc). cbv beta in E.
    apply (Pick _ c Hc). cbn [score_row F_Score].
    rewrite <- E in SF. apply bucket_highest; lra.
  - destruct (quantile_0_attained _ HM) as (v & Hv & E).
    apply in_map_iff in Hv. destruct Hv as (c & <- & Hc).
    apply (Pick _ c Hc). cbn [score_row M_Score]. unfold spec_M_Score.
    apply bucket_lowest.
    pose proof (quantile_monotone (monetary_col rfm) 0 (1 # 4) HM
                  ltac:(lra) ltac:(lra) ltac:(lra)).
    lra.
  - pose proof (Series_max_In _ HM) as Hv.
    apply in_map_iff in Hv. destruct Hv as (c & E & Hc). cbv beta in E.
    apply (Pick _ c Hc). cbn [score_row M_Score]. unfold spec_M_Score.
    rewrite <- E in SM. apply bucket_highest; lra.
Qed.

Lemma X4_witness :
  exists scored,
    assign_scores tied_customers = Ok scored
    /\ (exists s, In s scored /\ R_Score s = 4%Z)
    /\ (exists s, In s scored /\ R_Score s = 1%Z)
    /\ (exists s, In s scored /\ F_Score s = 1%Z)
    /\ (exists s, In s scored /\ F_Score s = 4%Z)
    /\ (exists s, In s scored /\ M_Score s = 1%Z)
    /\ (exists s, In s scored /\ M_Score s = 4%Z).
Proof.
  apply (X4_extreme_scores_occur tied_customers).
  eexists. vm_compute. reflexivity.
Defined.

Lemma str_digit (s : Z) :
  Scores.valid_score s -> str s = String (digit_char s) EmptyString.
Proof.
  unfold Scores.valid_score. intros H.
  assert (C : (s = 1 \/ s = 2 \/ s = 3 \/ s = 4)%Z) by lia.
  destruct C as [->|[->|[->| ->]]]; reflexivity.
Qed.

(** X5.  In the scored table [RFM_Segment] is a string of exactly three
    characters, the digits of R_Score, F_Score and M_Score in this
    order, each of them between 1 and 4. *)
Theorem X5_RFM_Segment_is_three_digits (rfm : list CustomerMetrics) :
  returns (assign_scores rfm) ->
  exists scored,
    assign_scores rfm = Ok scored
    /\ forall s, In s scored ->
         RFM_Segment s
         = String (digit_char (R_Score s))
             (String (digit_char (F_Score s))
                (String (digit_char (M_Score s)) EmptyString))
         /\ String.length (RFM_Segment s) = 3%nat
         /\ Scores.valid_score (R_Score s)
         /\ Scores.valid_score (F_Score s)
         /\ Scores.valid_score (M_Score s).
Proof.
  intros [scored H]. exists scored. split; [exact H|].
  apply assign_scores_Ok in H. destruct H as (_ & _ & _ & _ & ->).
  intros s Hs. apply in_map_iff in Hs. destruct Hs as (c & <- & _).
  cbn [score_row RFM_Segment R_Score F_Score M_Score].
  assert (VR : Scores.valid_score (spec_R_Score rfm c))
    by (apply bucket_valid; unfold Scores.valid_score; lia).
  assert (VF : Scores.valid_score (bucket 1 2 3 1 2 3 4 (inject_Z (Frequency c))))
    by (apply bucket_valid; unfold Scores.valid_score; lia).
  assert (VM : Scores.valid_score (spec_M_Score rfm c))
    by (apply bucket_valid; unfold Scores.valid_score; lia).
  rewrite (str_digit _ VR), (str_digit _ VF), (str_digit _ VM).
  repeat split; auto; apply VR || apply VF || apply VM.
Qed.

Lemma X5_witness :
  exists scored,
    assign_scores two_customers = Ok scored
    /\ forall s, In s scored ->
         RFM_Segment s
         = String (digit_char (R_Score s))
             (String (digit_char (F_Score s))
                (String (digit_char (M_Score s)) EmptyString))
         /\ String.length (RFM_Segment s) = 3%nat
         /\ Scores.valid_score (R_Score s)
         /\ Scores.valid_score (F_Score s)
         /\ Scores.valid_score (M_Score s).
Proof.
  apply (X5_RFM_Segment_is_three_digits two_customers).
  eexists. vm_compute. reflexivity.
Defined.

(** ** More on the aggregation step *)

Local Open Scope Z_scope.

Lemma snapshot_date_None (df : list Row) : snapshot_date df = None -> df = [].
Proof.
  unfold snapshot_date. destruct df; [reflexivity | discriminate].
Qed.

Lemma rfm_customers (df : list Row) : map Customer (rfm df) = group_keys df.
Proof.
  unfold rfm. destruct (snapshot_date df) as [s|] eqn:E.
  - rewrite map_map. simpl. apply map_id.
  - apply snapshot_date_None in E. now subst.
Qed.

Lemma sorted_nodup_strict (l : list Z) :
  StronglySorted Z.le l -> NoDup l -> StronglySorted Z.lt l.
Proof.
  induction 1 as [|a t Hs IH Ha]; intros Hnd; [constructor|].
  inversion Hnd as [|? ? Hnotin Hnd']; subst.
  constructor; [now apply IH|].
  rewrite Forall_forall in *. intros b Hb.
  specialize (Ha b Hb). assert (a <> b) by (intros ->; contradiction). lia.
Qed.

Lemma group_keys_NoDup (df : list Row) : NoDup (group_keys df).
Proof.
  eapply Permutation_NoDup; [apply sort_values_perm|].
  apply unique_NoDup, Z.eqb_eq.
Qed.

Lemma group_keys_strict (df : list Row) : StronglySorted Z.lt (group_keys df).
Proof.
  apply sorted_nodup_strict.
  - apply Sorted_StronglySorted; [intros x y z; lia|].
    apply sort_values_sorted.
    + intros x y. apply Z.leb_le.
    + intros x y H. apply Z.leb_gt in H. lia.
  - apply group_keys_NoDup.
Qed.

(** X6.  The table [rfm] has one row per customer: its customer
    identifiers are in strictly increasing order (so none occurs twice)
    and they are exactly the customers that have a row in [df_clean]. *)
Theorem X6_one_row_per_customer (df : list Row) :
  StronglySorted Z.lt (map Customer (rfm df))
  /\ forall k, In k (map Customer (rfm df)) <-> exists r, In r df /\ CustomerID r = k.
Proof.
  rewrite rfm_customers. split.
  - apply group_keys_strict.
  - apply group_keys_In.
Qed.

(** Sums of a column. *)
Lemma fold_left_Qplus_shift (l : list Q) (a : Q) :
  (fold_left Qplus l a == a + fold_left Qplus l 0)%Q.
Proof.
  revert a. induction l as [|x t IH]; intros a; simpl.
  - ring.
  - rewrite (IH (a + x)%Q), (IH (0 + x)%Q). ring.
Qed.

Lemma Series_sum_cons (x : Q) (l : list Q) :
  (Series_sum (x :: l) == x + Series_sum l)%Q.
Proof.
  unfold Series_sum. simpl. rewrite fold_left_Qplus_shift. ring.
Qed.

(** X7.  Recency is counted from the customer's most recent purchase:
    it is the number of whole days from one of the customer's rows to
    the snapshot date, and no row of the customer is nearer to that
    date. *)
Theorem X7_recency_counts_from_the_latest_purchase
        (df : list Row) (c : CustomerMetrics) (snapshot : Z) :
  snapshot_date df = Some snapshot -> In c (rfm df) ->
  (exists r, In r df /\ CustomerID r = Customer c
             /\ Recency c = days (snapshot - InvoiceDate r))
  /\ (forall r, In r df -> CustomerID r = Customer c ->
        Recency c <= days (snapshot - InvoiceDate r)).
Proof.
  intros Hsnap Hc. apply rfm_In in Hc. destruct Hc as (s & Hs & Hk & Hc).
  rewrite Hsnap in Hs. injection Hs as <-.
  apply group_keys_In in Hk. destruct Hk as (r0 & Hr0 & Hkey).
  assert (Hg : In r0 (group df (Customer c))) by (apply group_In; auto).
  assert (HR : Recency c
               = recency_of snapshot (map InvoiceDate (group df (Customer c)))).
  { rewrite Hc at 1. reflexivity. }
  rewrite HR. unfold recency_of.
  destruct (Timestamp_max (map InvoiceDate (group df (Customer c))))
    as [mine|] eqn:Hmine.
  - pose proof (Timestamp_max_spec _ _ Hmine) as [Hin Hmax].
    apply in_map_iff in Hin. destruct Hin as (r & <- & Hr).
    apply group_In in Hr. split.
    + exists r. tauto.
    + intros r' Hr' Hk'.
      assert (InvoiceDate r' <= InvoiceDate r).
      { apply Hmax, in_map, group_In. auto. }
      unfold days, one_day. apply Z.div_le_mono; lia.
  - destruct (group df (Customer c)); [now elim Hg | discriminate Hmine].
Qed.

Lemma X7_witness :
  (exists r, In r five_lines /\ CustomerID r = Customer five_lines_metrics
             /\ Recency five_lines_metrics = days (21521306 - InvoiceDate r))
  /\ (forall r, In r five_lines -> CustomerID r = Customer five_lines_metrics ->
        Recency five_lines_metrics <= days (21521306 - InvoiceDate r)).
Proof.
  apply (X7_recency_counts_from_the_latest_purchase five_lines).
  - reflexivity.
  - vm_compute. left. reflexivity.
Defined.

Lemma Series_sum_nonneg (l : list Q) :
  (forall x, In x l -> (0 < x)%Q) -> (0 <= Series_sum l)%Q.
Proof.
  induction l as [|x t IH]; intros H.
  - unfold Series_sum; simpl. lra.
  - rewrite Series_sum_cons.
    pose proof (H x (or_introl eq_refl)). pose proof (IH (fun y Hy => H y (or_intror Hy))).
    lra.
Qed.

Lemma Series_sum_pos (l : list Q) :
  l <> [] -> (forall x, In x l -> (0 < x)%Q) -> (0 < Series_sum l)%Q.
Proof.
  destruct l as [|x t]; [congruence|]. intros _ H.
  rewrite Series_sum_cons.
  pose proof (H x (or_introl eq_refl)).
  pose proof (Series_sum_nonneg t (fun y Hy => H y (or_intror Hy))).
  lra.
Qed.

Lemma df_clean_revenue_positive (raw : list RawRow) (row : Row) :
  In row (df_clean raw) -> (0 < TotalSales row)%Q.
Proof.
  unfold df_clean. rewrite filters_compose. intros Hin.
  apply in_flat_map in Hin. destruct Hin as (r & Hr & Hrow).
  apply filter_In in Hr. destruct Hr as [_ Hpass].
  pose proof (convert_row_cleaned r row Hpass Hrow) as H.
  unfold cleaned_from in H. tauto.
Qed.

(** X8.  From the raw file to the table: every customer of the table
    built on the cleaned rows has a strictly positive Monetary value. *)
Theorem X8_monetary_is_positive_after_cleaning (raw : list RawRow) (c : CustomerMetrics) :
  In c (rfm (df_clean raw)) -> (0 < Monetary c)%Q.
Proof.
  intros Hc. apply rfm_In in Hc. destruct Hc as (s & _ & Hk & Hc).
  rewrite Hc. cbn [Monetary agg].
  apply group_keys_In in Hk. destruct Hk as (r & Hr & Hkey).
  apply Series_sum_pos.
  - apply column_nonempty. intros E.
    assert (Hin : In r (group (df_clean raw) (Customer c))) by (apply group_In; auto).
    rewrite E in Hin. exact Hin.
  - intros x Hx. apply in_map_iff in Hx. destruct Hx as (row & <- & Hrow).
    apply group_In in Hrow. destruct Hrow as [Hrow _].
    now apply (df_clean_revenue_positive raw).
Qed.

Lemma X8_witness : (0 < Monetary (mkMetrics 13047 1 1 (2 # 2)))%Q.
Proof.
  apply (X8_monetary_is_positive_after_cleaning raw_sample).
  vm_compute. left; reflexivity.
Defined.

(** X9.  A customer's Frequency is at least 1 and at most the number of
    rows the customer has in [df_clean]. *)
Theorem X9_frequency_bounds (df : list Row) (c : CustomerMetrics) :
  In c (rfm df) ->
  1 <= Frequency c <= Z.of_nat (length (group df (Customer c))).
Proof.
  intros Hc. split; [now apply (frequency_at_least_one df)|].
  apply rfm_In in Hc. destruct Hc as (s & _ & _ & Hc).
  rewrite Hc at 1. cbn [Frequency agg]. unfold nunique, unique.
  pose proof (unique_from_length String.eqb [] (map Invoice (group df (Customer c)))) as H.
  rewrite length_map in H. lia.
Qed.

Lemma X9_witness :
  1 <= Frequency five_lines_metrics
    <= Z.of_nat (length (group five_lines (Customer five_lines_metrics))).
Proof.
  apply (X9_frequency_bounds five_lines five_lines_metrics).
  vm_compute. left; reflexivity.
Defined.

(** X10.  On a non-empty [df_clean] some customer has Recency exactly
    1: a customer who has a row at the last date of the data. *)
Theorem X10_latest_buyer_has_recency_one (df : list Row) :
  df <> [] ->
  exists c, In c (rfm df) /\ Recency c = 1
            /\ exists r, In r df /\ CustomerID r = Customer c
                         /\ forall r', In r' df -> InvoiceDate r' <= InvoiceDate r.
Proof.
  intros Hne.
  destruct (Timestamp_max (map InvoiceDate df)) as [last|] eqn:Hall;
    [|destruct df; [congruence | discriminate Hall]].
  pose proof (Timestamp_max_spec _ _ Hall) as [Hin Hmax].
  apply in_map_iff in Hin. destruct Hin as (r & Hdate & Hr).
  exists (agg (last + one_day) df (CustomerID r)). split; [|split].
  - unfold rfm, snapshot_date. rewrite Hall. simpl option_map.
    apply in_map. apply group_keys_In. now exists r.
  - cbn [Recency agg]. unfold recency_of.
    assert (Hg : In r (group df (CustomerID r))) by (apply group_In; auto).
    destruct (Timestamp_max (map InvoiceDate (group df (CustomerID r)))) as [mine|] eqn:Hmine.
    + pose proof (Timestamp_max_spec _ _ Hmine) as [Hin' Hmax'].
      assert (InvoiceDate r <= mine) by (apply Hmax', in_map, Hg).
      apply in_map_iff in Hin'. destruct Hin' as (r' & <- & Hr').
      apply group_In in Hr'. destruct Hr' as [Hr' _].
      assert (InvoiceDate r' <= last) by (apply Hmax, in_map, Hr').
      replace (InvoiceDate r') with last by lia.
      unfold days, one_day. replace (last + 1440 - last) with 1440 by lia. reflexivity.
    + destruct (group df (CustomerID r)); [now elim Hg | discriminate Hmine].
  - exists r. repeat split; auto.
    intros r' Hr'. rewrite Hdate. apply Hmax, in_map, Hr'.
Qed.

Lemma X10_witness :
  exists c, In c (rfm five_lines) /\ Recency c = 1
            /\ exists r, In r five_lines /\ CustomerID r = Customer c
                         /\ forall r', In r' five_lines -> InvoiceDate r' <= InvoiceDate r.
Proof.
  apply (X10_latest_buyer_has_recency_one five_lines). discriminate.
Defined.

(** ** More on the cleaning step *)

(** X11.  Cleaning works row by row: the cleaned rows of two chunks put
    together are the cleaned rows of the first followed by those of the
    second, and cleaning never yields more rows than it was given. *)
Theorem X11_cleaning_is_row_wise (df1 df2 : list RawRow) :
  df_clean (df1 ++ df2) = df_clean df1 ++ df_clean df2
  /\ (length (df_clean df1) <= length df1)%nat.
Proof.
  split; [apply df_clean_app|].
  induction df1 as [|r t IH]; [simpl; lia|].
  rewrite df_clean_cons, length_app. simpl length.
  destruct (passes_filters r); [|simpl; lia].
  unfold convert_row.
  destruct (raw_CustomerID r), (to_datetime (raw_InvoiceDate r)); simpl; lia.
Qed.

(** ** Segments and what is reported about them *)

Lemma get_segment_in_groups (r f m : Z) : In (get_segment r f m) Customer_Groups.
Proof.
  unfold get_segment, Customer_Groups.
  destruct (r =? 4), (f =? 4), (m =? 4), (f >=? 3), (f =? 1), (r =? 3), (r =? 2),
           (r =? 1), (f >=? 2); simpl; tauto.
Qed.

(** X12.  The Monetary score decides the group only for R = 4 and
    F = 4, where it tells Champions from Loyal Customers: for every
    other pair of Recency and Frequency scores the group is the same
    whatever the Monetary score. *)
Theorem X12_monetary_score_matters_only_for_champions (r f m m' : Z) :
  r <> 4 \/ f <> 4 -> get_segment r f m = get_segment r f m'.
Proof.
  intros H. unfold get_segment.
  destruct (Z.eqb_spec r 4), (Z.eqb_spec f 4); simpl; try reflexivity.
  lia.
Qed.

Lemma X12_witness : get_segment 4 3 4 = get_segment 4 3 1.
Proof.
  apply (X12_monetary_score_matters_only_for_champions 4 3 4 1). right. lia.
Defined.

Lemma lookup_suggestions (g : string) :
  In g Customer_Groups -> exists text, lookup suggestions g = Some text.
Proof.
  unfold Customer_Groups. simpl.
  intros [<-|[<-|[<-|[<-|[<-|[<-|[<-|[<-|[]]]]]]]]]; eexists; reflexivity.
Qed.

(** X13.  Whatever three integers the scores are, the answer of
    [get_segment] is a key of the dictionary [suggestions]: the default
    text of [suggestions.get] is never printed. *)
Theorem X13_every_segment_has_a_suggestion (r f m : Z) (default : string) :
  exists text,
    lookup suggestions (get_segment r f m) = Some text
    /\ dict_get suggestions (get_segment r f m) default = text.
Proof.
  destruct (lookup_suggestions _ (get_segment_in_groups r f m)) as [text H].
  exists text. split; [exact H|]. unfold dict_get. now rewrite H.
Qed.

Local Open Scope nat_scope.

Lemma count_of_cons (v x : string) (col : list string) :
  count_of v (x :: col) = (if String.eqb v x then 1 else 0) + count_of v col.
Proof. unfold count_of. simpl. destruct (String.eqb v x); reflexivity. Qed.

Lemma count_of_pos (v : string) (col : list string) : In v col -> 1 <= count_of v col.
Proof.
  induction col as [|x t IH]; intros H; [now elim H|].
  rewrite count_of_cons. destruct H as [->|H].
  - rewrite String.eqb_refl. lia.
  - specialize (IH H). lia.
Qed.

Lemma list_sum_pick (keys : list string) (k0 : string) (g : string -> nat) :
  NoDup keys -> In k0 keys ->
  list_sum (map (fun k => (if String.eqb k k0 then 1 else 0) + g k) keys)
  = 1 + list_sum (map g keys).
Proof.
  induction 1 as [|k t Hnotin Hnd IH]; intros Hin; [now elim Hin|].
  simpl. destruct (String.eqb_spec k k0) as [->|Hne].
  - assert (E : map (fun k => (if String.eqb k k0 then 1 else 0) + g k) t = map g t).
    { apply map_ext_in. intros k Hk.
      destruct (String.eqb_spec k k0) as [->|_]; [contradiction | reflexivity]. }
    rewrite E. lia.
  - destruct Hin as [->|Hin]; [congruence|]. rewrite (IH Hin). lia.
Qed.

Lemma counts_add_up (col keys : list string) :
  NoDup keys -> (forall v, In v col -> In v keys) ->
  list_sum (map (fun k => count_of k col) keys) = length col.
Proof.
  intros Hnd. induction col as [|x t IH]; intros Hcov.
  - clear. induction keys as [|k t IH]; simpl; auto.
  - simpl length. rewrite <- IH by (intros; apply Hcov; now right).
    rewrite <- (list_sum_pick keys x); [|exact Hnd|apply Hcov; now left].
    f_equal. apply map_ext. intros k. apply count_of_cons.
Qed.

Lemma value_counts_perm (col : list string) :
  Permutation (map (fun v => (v, count_of v col)) (unique String.eqb col))
              (value_counts col).
Proof. apply sort_values_perm. Qed.

Lemma value_counts_In (col : list string) (g : string) (n : nat) :
  In (g, n) (value_counts col) <-> In g col /\ n = count_of g col.
Proof.
  unfold value_counts. rewrite sort_values_In, in_map_iff. split.
  - intros (v & E & Hv). injection E as <- <-.
    apply (proj1 (unique_In String.eqb String.eqb_eq _ _)) in Hv. auto.
  - intros [Hg ->]. exists g. split; [reflexivity|].
    now apply (unique_In String.eqb String.eqb_eq).
Qed.

(** X14.  [segment_counts] lists each group that occurs once, with the
    number of customers of the group (at least 1), greatest number
    first; the groups are among the eight names, so there are at most
    eight lines, and the numbers add up to the number of customers. *)
Theorem X14_segment_counts_partition_the_customers (scored : list ScoredCustomer) :
  let groups := map Customer_Group (segment_customers scored) in
  let counts := segment_counts (segment_customers scored) in
  NoDup (map fst counts)
  /\ (forall g n, In (g, n) counts ->
        In g Customer_Groups /\ 1 <= n /\ n = count_of g groups)
  /\ list_sum (map snd counts) = length scored
  /\ length counts <= 8
  /\ StronglySorted (fun a b => snd b <= snd a) counts.
Proof.
  intros groups counts.
  assert (Hperm : Permutation (map (fun v => (v, count_of v groups))
                                   (unique String.eqb groups)) counts)
    by apply value_counts_perm.
  assert (Hfst : Permutation (unique String.eqb groups) (map fst counts)).
  { apply (Permutation_map fst) in Hperm. rewrite map_map in Hperm.
    simpl in Hperm. now rewrite map_id in Hperm. }
  assert (Hnd : NoDup (map fst counts)).
  { eapply Permutation_NoDup; [exact Hfst|]. apply unique_NoDup, String.eqb_eq. }
  assert (Hgroups : forall g, In g groups -> In g Customer_Groups).
  { intros g Hg. unfold groups, segment_customers in Hg. rewrite map_map in Hg.
    apply in_map_iff in Hg. destruct Hg as (s & <- & _). apply get_segment_in_groups. }
  split; [exact Hnd|]. split; [|split; [|split]].
  - intros g n Hin. apply value_counts_In in Hin. destruct Hin as [Hg ->].
    repeat split; auto. now apply count_of_pos.
  - apply (Permutation_map snd) in Hperm. rewrite map_map in Hperm. simpl in Hperm.
    rewrite <- (Permutation_list_sum Hperm).
    rewrite counts_add_up.
    + unfold groups, segment_customers. now rewrite !length_map.
    + apply unique_NoDup, String.eqb_eq.
    + intros v Hv. now apply (unique_In String.eqb String.eqb_eq).
  - rewrite <- (length_map fst).
    change 8 with (length Customer_Groups).
    apply NoDup_incl_length; [exact Hnd|].
    intros g Hg. apply Hgroups.
    apply (Permutation_in _ (Permutation_sym Hfst)) in Hg.
    now apply (proj1 (unique_In String.eqb String.eqb_eq _ _)) in Hg.
  - apply Sorted_StronglySorted; [intros a b c; lia|].
    apply sort_values_sorted.
    + intros a b. apply Nat.leb_le.
    + intros a b H. apply Nat.leb_gt in H. lia.
Qed.

(** ** From the raw file to the segments *)

Local Open Scope Z_scope.

Lemma df_clean_customers (raw : list RawRow) (k : Z) :
  (exists row, In row (df_clean raw) /\ CustomerID row = k)
  <-> exists r, In r raw /\ well_formed r /\ raw_CustomerID r = Some k.
Proof.
  unfold df_clean. rewrite filters_compose. split.
  - intros (row & Hin & <-). apply in_flat_map in Hin.
    destruct Hin as (r & Hr & Hrow). apply filter_In in Hr. destruct Hr as [Hr Hpass].
    exists r. split; [exact Hr|].
    pose proof (convert_row_cleaned r row Hpass Hrow) as Hc.
    split; [|unfold cleaned_from in Hc; tauto].
    apply well_formed_iff. split; [exact Hpass|].
    exists row. unfold convert_row in *.
    destruct (raw_CustomerID r), (to_datetime (raw_InvoiceDate r));
      try (now elim Hrow).
    destruct Hrow as [<-|[]]. reflexivity.
  - intros (r & Hr & Hwf & Hk). apply well_formed_iff in Hwf.
    destruct Hwf as (Hpass & row & Hrow).
    exists row. split.
    + apply in_flat_map. exists r. split; [apply filter_In; auto|].
      rewrite Hrow. now left.
    + assert (Hc : cleaned_from r row).
      { apply convert_row_cleaned; [exact Hpass|]. rewrite Hrow. now left. }
      unfold cleaned_from in Hc. destruct Hc as (Hc & _). congruence.
Qed.

(** X15.  From the raw file to the segments.  The table built on the
    cleaned rows lists, in increasing order and once each, the customers
    who have at least one raw record with a customer identifier, a
    positive quantity, a positive price and a date that converts.  The
    segmentation keeps a scored table row by row and adds to each row
    the group [get_segment] gives for its scores, one of the eight. *)
Theorem X15_table_lists_the_customers_of_well_formed_records (raw : list RawRow) :
  StronglySorted Z.lt (map Customer (rfm (df_clean raw)))
  /\ (forall k, In k (map Customer (rfm (df_clean raw))) <->
                exists r, In r raw /\ well_formed r /\ raw_CustomerID r = Some k)
  /\ (forall scored,
        map Scored (segment_customers scored) = scored
        /\ forall c, In c (segment_customers scored) ->
             Customer_Group c
             = get_segment (R_Score (Scored c)) (F_Score (Scored c)) (M_Score (Scored c))
             /\ In (Customer_Group c) Customer_Groups).
Proof.
  rewrite rfm_customers. split; [apply group_keys_strict|]. split.
  - intros k. rewrite group_keys_In. apply df_clean_customers.
  - intros scored. unfold segment_customers. split.
    + rewrite map_map. cbn [Scored]. apply map_id.
    + intros c Hc. apply in_map_iff in Hc. destruct Hc as (m & <- & _).
      cbn [Scored Customer_Group]. split; [reflexivity|].
      apply get_segment_in_groups.
Qed.

Lemma X15_witness :
  map Customer (rfm (df_clean raw_sample)) = [13047; 17850]
  /\ exists r, In r raw_sample /\ well_formed r /\ raw_CustomerID r = Some 13047.
Proof.
  split; [vm_compute; reflexivity|].
  apply (proj1 (proj1 (proj2
           (X15_table_lists_the_customers_of_well_formed_records raw_sample)) 13047)).
  vm_compute. left. reflexivity.
Defined.

(** ** The five greatest spenders *)

Lemma StronglySorted_app_inv {A : Type} (R : A -> A -> Prop) (l1 l2 : list A) :
  StronglySorted R (l1 ++ l2) ->
  StronglySorted R l1 /\ forall a b, In a l1 -> In b l2 -> R a b.
Proof.
  induction l1 as [|x t IH]; simpl; intros H.
  - split; [constructor | intros a b []].
  - inversion H as [|? ? Hs Hx]; subst. destruct (IH Hs) as [IH1 IH2].
    rewrite Forall_forall in Hx. split.
    + constructor; [exact IH1|]. apply Forall_forall. intros y Hy.
      apply Hx, in_or_app. now left.
    + intros a b [<-|Ha] Hb; [apply Hx, in_or_app; now right | now apply IH2].
Qed.

(** X16.  [top_customers] holds five rows (all of them when the table
    has fewer), by decreasing Monetary value, and no customer left out
    has a greater Monetary value than one who is listed. *)
Theorem X16_top_customers_are_the_greatest_spenders (rfm : list CustomerMetrics) :
  let top := top_customers rfm in
  length top = Nat.min 5 (length rfm)
  /\ StronglySorted (fun a b => (Monetary b <= Monetary a)%Q) top
  /\ exists rest,
       Permutation rfm (top ++ rest)
       /\ forall a b, In a top -> In b rest -> (Monetary b <= Monetary a)%Q.
Proof.
  intros top. unfold top, top_customers, nlargest.
  set (leb := fun a b => Qle_bool (Monetary b) (Monetary a)).
  set (R := fun a b : CustomerMetrics => (Monetary b <= Monetary a)%Q).
  assert (Hs : StronglySorted R (sort_values leb rfm)).
  { apply Sorted_StronglySorted.
    - intros a b c Hab Hbc. unfold R in *. lra.
    - apply sort_values_sorted.
      + intros a b H. apply Qle_bool_iff in H. exact H.
      + intros a b H. apply Qle_bool_false in H. unfold R. lra. }
  rewrite <- (firstn_skipn 5 (sort_values leb rfm)) in Hs.
  apply StronglySorted_app_inv in Hs. destruct Hs as [Hs1 Hs2].
  split; [|split].
  - now rewrite length_firstn, sort_values_length.
  - exact Hs1.
  - exists (skipn 5 (sort_values leb rfm)). split; [|exact Hs2].
    rewrite firstn_skipn. apply sort_values_perm.
Qed.

(** ** The path typed by the user *)

Import PathTool.

Local Open Scope nat_scope.

Lemma chars_of_string_of_chars (l : list ascii) :
  list_ascii_of_string (string_of_list_ascii l) = l.
Proof. apply list_ascii_of_string_of_list_ascii. Qed.

Lemma length_chars (s : string) : length (list_ascii_of_string s) = String.length s.
Proof. induction s; simpl; auto. Qed.

Lemma chars_app (s1 s2 : string) :
  list_ascii_of_string (s1 ++ s2) = list_ascii_of_string s1 ++ list_ascii_of_string s2.
Proof. induction s1; simpl; [reflexivity | now rewrite IHs1]. Qed.

Lemma lstrip_split (s : list ascii) : exists blanks, s = blanks ++ lstrip s.
Proof.
  induction s as [|c t [b IH]]; simpl.
  - now exists [].
  - destruct (isspace c).
    + exists (c :: b). simpl. now rewrite <- IH.
    + now exists [].
Qed.

Lemma lstrip_head (s : list ascii) (c : ascii) (rest : list ascii) :
  lstrip s = c :: rest -> isspace c = false.
Proof.
  induction s as [|x t IH]; simpl; [discriminate|].
  destruct (isspace x) eqn:E; [exact IH|].
  intros [= <- _]. exact E.
Qed.

Lemma lstrip_keeps (c : ascii) (rest : list ascii) :
  isspace c = false -> lstrip (c :: rest) = c :: rest.
Proof. intros E. simpl. now rewrite E. Qed.

Lemma rstrip_split (s : list ascii) : exists blanks, s = rstrip s ++ blanks.
Proof.
  unfold rstrip. destruct (lstrip_split (rev s)) as [b Hb].
  exists (rev b). rewrite <- rev_app_distr, <- Hb. symmetry. apply rev_involutive.
Qed.

Lemma rstrip_last (s init : list ascii) (c : ascii) :
  rstrip s = init ++ [c] -> isspace c = false.
Proof.
  unfold rstrip. intros H.
  apply (f_equal (@rev ascii)) in H. rewrite rev_involutive, rev_app_distr in H.
  simpl in H. now apply lstrip_head in H.
Qed.

Lemma strip_ends (s : list ascii) :
  (forall c rest, strip s = c :: rest -> isspace c = false)
  /\ (forall init c, strip s = init ++ [c] -> isspace c = false).
Proof.
  unfold strip. split.
  - intros c rest H. destruct (rstrip_split (lstrip s)) as [b Hb].
    rewrite H in Hb. simpl in Hb. now apply lstrip_head in Hb.
  - intros init c H. now apply rstrip_last in H.
Qed.

Lemma length_lstrip (s : list ascii) : length (lstrip s) <= length s.
Proof.
  destruct (lstrip_split s) as [b Hb]. rewrite Hb at 2. rewrite length_app. lia.
Qed.

Lemma length_strip (s : list ascii) : length (strip s) <= length s.
Proof.
  unfold strip, rstrip. rewrite length_rev.
  pose proof (length_lstrip (rev (lstrip s))) as H. rewrite length_rev in H.
  pose proof (length_lstrip s). lia.
Qed.

Lemma remove_quotes_In (s : list ascii) (c : ascii) :
  In c (remove_quotes s) <-> In c s /\ c <> double_quote.
Proof.
  unfold remove_quotes. rewrite filter_In, negb_true_iff.
  destruct (Ascii.eqb_spec c double_quote); split; intros [H1 H2];
    split; auto; congruence.
Qed.

Lemma remove_quotes_nothing (s : list ascii) :
  ~ In double_quote s -> remove_quotes s = s.
Proof.
  induction s as [|c t IH]; intros H; [reflexivity|].
  unfold remove_quotes in *. simpl.
  destruct (Ascii.eqb_spec c double_quote) as [->|_]; simpl.
  - exfalso. apply H. now left.
  - f_equal. apply IH. intros Hin. apply H. now right.
Qed.

(** X17.  The path never holds a double quote, wherever the quotes were
    in the line, and it is never longer than the line. *)
Theorem X17_path_has_no_double_quote (line : string) :
  ~ In double_quote (list_ascii_of_string (file_path line))
  /\ String.length (file_path line) <= String.length line.
Proof.
  unfold file_path. rewrite <- !length_chars, chars_of_string_of_chars. split.
  - intros H. apply remove_quotes_In in H. destruct H as [_ H]. now apply H.
  - unfold remove_quotes.
    pose proof (filter_length_le (fun c => negb (Ascii.eqb c double_quote))
                  (strip (list_ascii_of_string line))).
    pose proof (length_strip (list_ascii_of_string line)). lia.
Qed.

(** X18.  When the line holds no double quote, the path is the line
    without the white space at its two ends: it neither begins nor ends
    with a white space character. *)
Theorem X18_unquoted_path_is_stripped (line : string) :
  ~ In double_quote (list_ascii_of_string line) ->
  (forall c rest, list_ascii_of_string (file_path line) = c :: rest -> isspace c = false)
  /\ (forall init c, list_ascii_of_string (file_path line) = init ++ [c] ->
                     isspace c = false).
Proof.
  intros Hq. unfold file_path. rewrite chars_of_string_of_chars.
  rewrite remove_quotes_nothing; [apply strip_ends|].
  intros Hin. apply Hq.
  destruct (rstrip_split (lstrip (list_ascii_of_string line))) as [b Hb].
  destruct (lstrip_split (list_ascii_of_string line)) as [a Ha].
  rewrite Ha, Hb. apply in_or_app. right. apply in_or_app. now left.
Qed.

Lemma X18_witness :
  (forall c rest,
      list_ascii_of_string (file_path "  Online_Retail.csv ") = c :: rest ->
      isspace c = false)
  /\ (forall init c,
        list_ascii_of_string (file_path "  Online_Retail.csv ") = init ++ [c] ->
        isspace c = false).
Proof.
  apply (X18_unquoted_path_is_stripped "  Online_Retail.csv ").
  vm_compute. intros H.
  repeat (destruct H as [H|H]; [discriminate H|]). exact H.
Defined.

Lemma strip_between_marks (c d : ascii) (l : list ascii) :
  isspace c = false -> isspace d = false ->
  strip (c :: l ++ [d]) = c :: l ++ [d].
Proof.
  intros Hc Hd. unfold strip, rstrip. rewrite (lstrip_keeps _ _ Hc).
  assert (E : rev (c :: l ++ [d]) = d :: rev l ++ [c])
    by (simpl; rewrite rev_app_distr; reflexivity).
  rewrite E, (lstrip_keeps _ _ Hd). simpl.
  rewrite rev_app_distr, rev_involutive. reflexivity.
Qed.

(** X19.  When the line is wrapped in double quotes, nothing is
    stripped: the path is what stands between the two quotes, less the
    double quotes it holds, and white space next to the quotes stays. *)
Theorem X19_quoted_path_keeps_its_white_space (inner : string) :
  file_path (String double_quote (inner ++ String double_quote EmptyString))
  = string_of_list_ascii (remove_quotes (list_ascii_of_string inner)).
Proof.
  unfold file_path. f_equal.
  change (list_ascii_of_string (String double_quote (inner ++ String double_quote EmptyString)))
    with (double_quote :: list_ascii_of_string (inner ++ String double_quote EmptyString)).
  rewrite chars_app.
  change (list_ascii_of_string (String double_quote EmptyString)) with [double_quote].
  rewrite strip_between_marks by reflexivity.
  unfold remove_quotes.
  change (double_quote :: list_ascii_of_string inner ++ [double_quote])
    with ([double_quote] ++ list_ascii_of_string inner ++ [double_quote]).
  rewrite !filter_app.
  change (filter (fun c => negb (Ascii.eqb c double_quote)) [double_quote]) with (@nil ascii).
  simpl app. apply app_nil_r.
Qed.

(** ** Populations the binnings of Recency and Frequency accept *)

Local Open Scope Q_scope.

Lemma distinct_perm (l l' : list Q) :
  Permutation l l' ->
  ForallOrdPairs (fun a b => ~ a == b) l -> ForallOrdPairs (fun a b => ~ a == b) l'.
Proof.
  induction 1 as [|x l l' Hp IH|x y l|l l' l'' Hp1 IH1 Hp2 IH2]; intros H.
  - constructor.
  - inversion H as [|? ? Hx Hl]; subst. constructor; [|now apply IH].
    rewrite Forall_forall in *. intros b Hb. apply Hx.
    now apply (Permutation_in _ (Permutation_sym Hp)).
  - inversion H as [|? ? Hy Hl]; subst. inversion Hl as [|? ? Hx Hl']; subst.
    inversion Hy as [|? ? Hyx Hy']; subst.
    constructor; [|constructor; auto].
    constructor; [|exact Hx]. intros E. apply Hyx. now symmetry.
  - auto.
Qed.

Lemma distinct_map {A : Type} (f : A -> Q) (R : A -> A -> Prop) (l : list A) :
  (forall a b, R a b -> ~ f a == f b) ->
  ForallOrdPairs R l -> ForallOrdPairs (fun a b => ~ a == b) (map f l).
Proof.
  intros HR. induction 1 as [|a t Ha Ht IH]; simpl; constructor; auto.
  rewrite Forall_forall in *. intros b Hb.
  apply in_map_iff in Hb. destruct Hb as (c & <- & Hc). auto.
Qed.

Lemma nth_sorted_strict (s : list Q) :
  StronglySorted Qlt s ->
  forall i j, (i < j < length s)%nat -> nth i s 0 < nth j s 0.
Proof.
  induction 1 as [|a t Hs IH Ha]; intros i j Hij; simpl in Hij; [lia|].
  destruct i as [|i], j as [|j]; simpl; try lia.
  - rewrite Forall_forall in Ha. apply Ha, nth_In. lia.
  - apply IH. lia.
Qed.

(** On a column of at least two values, no two of them equal, the
    quantile grows strictly with its order. *)
Lemma quantile_strictly_monotone (x : list Q) (q q' : Q) :
  ForallOrdPairs (fun a b => ~ a == b) x -> (2 <= length x)%nat ->
  0 <= q -> q < q' -> q' <= 1 ->
  quantile x q < quantile x q'.
Proof.
  intros Hd Hlen2 H0 Hqq H1. unfold quantile.
  pose proof (sorted_column x) as Hs.
  pose proof (sorted_distinct_strict _ Hs
                (distinct_perm _ _ (sort_values_perm Qle_bool x) Hd)) as Hstrict.
  unfold strictly_increasing in Hstrict.
  pose proof (sort_values_length Qle_bool x) as Hlen.
  set (s := sort_values Qle_bool x) in *.
  set (n := Z.of_nat (length s)).
  assert (Hn : (2 <= n)%Z) by (unfold n; lia).
  assert (Hn1 : 1 <= inject_Z (n - 1)).
  { change 1 with (inject_Z 1). rewrite <- Zle_Qle. lia. }
  set (p := inject_Z (n - 1) * q). set (p' := inject_Z (n - 1) * q').
  assert (Hp0 : 0 <= p) by (unfold p; nra).
  assert (Hpp : p < p') by (unfold p, p'; nra).
  assert (Hp1 : p' <= inject_Z (n - 1)) by (unfold p'; nra).
  destruct (floor_position n p ltac:(lia) Hp0 ltac:(lra)) as ((L0 & L1) & G0 & G1).
  destruct (floor_position n p' ltac:(lia) ltac:(lra) Hp1) as ((L0' & L1') & G0' & G1').
  assert (Hll : (Qfloor p <= Qfloor p')%Z) by (apply Qfloor_resp_le; lra).
  set (lo := Qfloor p) in *. set (lo' := Qfloor p') in *.
  assert (Hlo : (lo < n - 1)%Z).
  { rewrite Zlt_Qlt. lra. }
  assert (Hle : forall i j : Z, (0 <= i <= j)%Z -> (j <= n - 1)%Z ->
                  nth (Z.to_nat i) s 0 <= nth (Z.to_nat j) s 0).
  { intros i j Hij Hj. apply nth_sorted; [exact Hs|]. unfold n in Hj. lia. }
  assert (Hlt : forall i j : Z, (0 <= i < j)%Z -> (j <= n - 1)%Z ->
                  nth (Z.to_nat i) s 0 < nth (Z.to_nat j) s 0).
  { intros i j Hij Hj. apply nth_sorted_strict; [exact Hstrict|]. unfold n in Hj. lia. }
  replace (Z.min (lo + 1) (n - 1)) with (lo + 1)%Z by lia.
  pose proof (Hlt lo (lo + 1)%Z ltac:(lia) ltac:(lia)) as Hab.
  pose proof (Hle lo' (Z.min (lo' + 1) (n - 1)) ltac:(lia) ltac:(lia)) as Hab'.
  destruct (Z.eq_dec lo lo') as [E|E].
  - rewrite <- E in *. replace (Z.min (lo + 1) (n - 1)) with (lo + 1)%Z by lia.
    set (a := nth (Z.to_nat lo) s 0) in *.
    set (b := nth (Z.to_nat (lo + 1)) s 0) in *.
    nra.
  - pose proof (Hle (lo + 1)%Z lo' ltac:(lia) ltac:(lia)) as Hba.
    set (a := nth (Z.to_nat lo) s 0) in *.
    set (b := nth (Z.to_nat (lo + 1)) s 0) in *.
    set (a' := nth (Z.to_nat lo') s 0) in *.
    set (b' := nth (Z.to_nat (Z.min (lo' + 1) (n - 1))) s 0) in *.
    destruct (interpolation_between a' b' (p' - inject_Z lo')) as [L _]; try lra.
    assert (a + (b - a) * (p - inject_Z lo) < b) by nra.
    lra.
Qed.

Lemma two_customers_at_least (rfm : list CustomerMetrics) (c c' : CustomerMetrics) :
  In c rfm -> In c' rfm -> c <> c' -> (2 <= length rfm)%nat.
Proof.
  destruct rfm as [|a [|b t]]; simpl; intros H H' Hne; try lia; try tauto.
  destruct H as [<-|[]], H' as [<-|[]]. congruence.
Qed.

(** X20.  The binnings of Recency and Frequency return whenever no two
    customers share a Recency, some customer has a single invoice and
    some customer has at least four. *)
Theorem X20_distinct_recencies_are_binned (rfm : list CustomerMetrics) :
  NoDup (map Recency rfm) ->
  (exists c, In c rfm /\ (Frequency c <= 1)%Z) ->
  (exists c, In c rfm /\ (4 <= Frequency c)%Z) ->
  returns (R_Score_cut rfm) /\ returns (F_Score_cut rfm).
Proof.
  intros HR (c1 & Hc1 & Hf1) (c4 & Hc4 & Hf4).
  assert (Hlen : (2 <= length rfm)%nat).
  { apply (two_customers_at_least rfm c1 c4 Hc1 Hc4). intros ->. lia. }
  assert (Hne : rfm <> []) by (intros ->; simpl in Hlen; lia).
  assert (DR : ForallOrdPairs (fun a b => ~ a == b) (recency_col rfm)).
  { apply NoDup_iff_ForallOrdPairs in HR. unfold recency_col.
    rewrite <- (map_map Recency inject_Z).
    apply (distinct_map inject_Z (fun a b => a <> b)); [|exact HR].
    intros a b Hab E. apply Hab. now apply inject_Z_injective. }
  split.
  - apply R_Score_cut_returns; [exact Hne|].
    rewrite recency_edges_5. apply strictly_increasing_5.
    assert (S : forall q q', 0 <= q -> q < q' -> q' <= 1 ->
                  quantile (recency_col rfm) q < quantile (recency_col rfm) q').
    { intros. apply quantile_strictly_monotone; auto.
      unfold recency_col. now rewrite length_map. }
    repeat split; apply S; unfold Qle, Qlt; simpl; lia.
  - apply F_Score_cut_returns_iff.
    pose proof (Series_min_le (frequency_col rfm) (inject_Z (Frequency c1))
                  (in_map (fun c => inject_Z (Frequency c)) rfm c1 Hc1)) as Hmin.
    pose proof (Series_max_ge (frequency_col rfm) (inject_Z (Frequency c4))
                  (in_map (fun c => inject_Z (Frequency c)) rfm c4 Hc4)) as Hmax.
    assert (inject_Z (Frequency c1) <= 1)
      by (change 1 with (inject_Z 1); now rewrite <- Zle_Qle).
    assert (4 <= inject_Z (Frequency c4))
      by (change 4 with (inject_Z 4); now rewrite <- Zle_Qle).
    split; lra.
Qed.

Lemma X20_witness :
  returns (R_Score_cut two_customers) /\ returns (F_Score_cut two_customers).
Proof.
  apply (X20_distinct_recencies_are_binned two_customers).
  - repeat constructor; simpl; intuition discriminate.
  - exists (mkMetrics 12346 1 1 10). split; [now left | vm_compute; discriminate].
  - exists (mkMetrics 12347 2 5 20). split; [right; now left | vm_compute; discriminate].
Defined.
